(** * Style transitions of react-strict-dom (native): a shallow embedding

    Source: packages/react-strict-dom/src/native/modules/useStyleTransition.js

    The development has three layers.
    - [JS]: the part of the JavaScript runtime the module relies on: strings
      ([includes], [split], [trim], [parseFloat]), numbers (IEEE binary64,
      with [===] irreflexive on NaN), values with object identity, [typeof].
    - The functions of the module, under their source names.
    - The properties of the specification, stated over these functions. *)

From Stdlib Require Import Floats SpecFloat ZArith Ascii String.
From stdpp Require Import gmap strings list fin_maps.

Set Warnings "-inexact-float,-register-all".

(* ===================================================================== *)
(** ** The JavaScript runtime *)
(* ===================================================================== *)

Module JS.

(** *** Strings

    A string is a sequence of code units; this development covers the code
    units below 256, one [ascii] each. *)

(** WhiteSpace and LineTerminator code points below 256: TAB, LF, VT, FF, CR,
    SP and NBSP. *)
Definition is_white_space (c : ascii) : bool :=
  let n := nat_of_ascii c in
  (Nat.eqb n 9 || Nat.eqb n 10 || Nat.eqb n 11 || Nat.eqb n 12
   || Nat.eqb n 13 || Nat.eqb n 32 || Nat.eqb n 160)%bool.

Fixpoint trimStart (s : string) : string :=
  match s with
  | "" => ""
  | String c s' => if is_white_space c then trimStart s' else s
  end.

Fixpoint trimEnd (s : string) : string :=
  match s with
  | "" => ""
  | String c s' =>
      match trimEnd s' with
      | "" => if is_white_space c then "" else String c ""
      | t => String c t
      end
  end.

(** [s.trim()] *)
Definition trim (s : string) : string := trimEnd (trimStart s).

(** [s.indexOf(sub)]: where the leftmost occurrence of [sub] starts. *)
Fixpoint indexOf (s sub : string) : option nat :=
  if String.prefix sub s then Some 0
  else match s with
       | "" => None
       | String _ s' => S <$> indexOf s' sub
       end.

(** [s.includes(sub)] *)
Definition includes (s sub : string) : bool :=
  match indexOf s sub with
  | Some _ => true
  | None => false
  end.

(** The first [n] code units of [s], and [s] without them. *)
Fixpoint take_str (n : nat) (s : string) : string :=
  match n, s with
  | S n', String c s' => String c (take_str n' s')
  | _, _ => ""
  end.

Fixpoint drop_str (n : nat) (s : string) : string :=
  match n, s with
  | S n', String _ s' => drop_str n' s'
  | _, _ => s
  end.

(** [s.split(sep)] for a separator that is not empty: the pieces between the
    leftmost, non-overlapping occurrences of [sep].  [split_go] returns the
    piece being read and the pieces after it; [skip] counts the code units of
    a matched separator still to be passed over. *)
Fixpoint split_go (sep : string) (skip : nat) (s : string)
  : string * list string :=
  match s with
  | "" => ("", [])
  | String c s' =>
      match skip with
      | S n => split_go sep n s'
      | O =>
          if String.prefix sep s
          then ("", let '(p, ps) := split_go sep (String.length sep - 1) s'
                    in p :: ps)
          else let '(p, ps) := split_go sep 0 s' in (String c p, ps)
      end
  end.

Fixpoint chars (s : string) : list string :=
  match s with
  | "" => []
  | String c s' => String c "" :: chars s'
  end.

Definition split (s sep : string) : list string :=
  match sep with
  | "" => chars s
  | _ => let '(p, ps) := split_go sep 0 s in p :: ps
  end.

(** [pieces.join(sep)] *)
Fixpoint join (sep : string) (pieces : list string) : string :=
  match pieces with
  | [] => ""
  | [p] => p
  | p :: ps => p +:+ sep +:+ join sep ps
  end.

(** *** Numbers

    A Number is an IEEE 754 binary64 value, a [float] here. *)

Definition NaN : float := PrimFloat.nan.

(** [a === b] on two Numbers: IEEE equality, so [NaN === NaN] is false and
    [+0 === -0] is true. *)
Definition number_strict_eq (a b : float) : bool := PrimFloat.eqb a b.

Definition isNaN (a : float) : bool := PrimFloat.is_nan a.

Local Open Scope Z_scope.

(** The value of a decimal literal: [(-1)^neg * m * 10^e], or an infinity. *)
Inductive decimal :=
  | DInfinity (neg : bool)
  | DFinite (neg : bool) (m : Z) (e : Z).

Definition prec : Z := 53.
Definition emax : Z := 1024.

(** The binary64 value nearest to [p / q] (ties to even), for [p, q > 0]: the
    quotient is taken with more than 60 significant bits and a sticky last
    bit, then rounded. *)
Definition round_ratio (neg : bool) (p q : Z) : spec_float :=
  let s := Z.max 0 (62 + Z.log2 q - Z.log2 p) in
  let n := p * 2 ^ s in
  let m := 2 * (n / q) + (if n mod q =? 0 then 0 else 1) in
  binary_normalize prec emax (if neg then - m else m) (- s - 1) neg.

Definition number_of_decimal (d : decimal) : float :=
  match d with
  | DInfinity neg => if neg then PrimFloat.neg_infinity else PrimFloat.infinity
  | DFinite neg m e =>
      SF2Prim
        (if m =? 0 then S754_zero neg
         else if 0 <=? e
              then binary_normalize prec emax
                     (if neg then - (m * 10 ^ e) else m * 10 ^ e) 0 neg
              else round_ratio neg m (10 ^ (- e)))
  end.

Definition digit_of (c : ascii) : option Z :=
  let n := nat_of_ascii c in
  if (Nat.leb 48 n && Nat.leb n 57)%bool then Some (Z.of_nat (n - 48)%nat)
  else None.

(** Reads DecimalDigits at the head of [s], continuing the value [acc]:
    the value read, the number of digits read and the rest of [s]. *)
Fixpoint scan_digits (acc : Z) (count : nat) (s : string)
  : Z * nat * string :=
  match s with
  | "" => (acc, count, "")
  | String c s' =>
      match digit_of c with
      | Some d => scan_digits (10 * acc + d) (S count) s'
      | None => (acc, count, s)
      end
  end.

Definition scan_sign (s : string) : bool * string :=
  match s with
  | String "-" s' => (true, s')
  | String "+" s' => (false, s')
  | _ => (false, s)
  end.

(** ExponentPart, optional: [e] or [E], a sign, at least one digit. *)
Definition scan_exponent (s : string) : Z :=
  match s with
  | String c s' =>
      if (Ascii.eqb c "e" || Ascii.eqb c "E")%bool
      then let '(neg, s'') := scan_sign s' in
           match scan_digits 0 0 s'' with
           | (_, O, _) => 0
           | (x, _, _) => if neg then - x else x
           end
      else 0
  | "" => 0
  end.

(** The longest prefix of [s] that is a StrDecimalLiteral, if there is one. *)
Definition scan_decimal (s : string) : option decimal :=
  let '(neg, s1) := scan_sign s in
  if String.prefix "Infinity" s1 then Some (DInfinity neg)
  else
    let '(ip, ni, r1) := scan_digits 0 0 s1 in
    match r1 with
    | String "." r =>
        let '(m, nf, r2) := scan_digits ip 0 r in
        match ni, nf with
        | O, O => None
        | _, _ => Some (DFinite neg m (scan_exponent r2 - Z.of_nat nf))
        end
    | _ =>
        match ni with
        | O => None
        | _ => Some (DFinite neg ip (scan_exponent r1))
        end
    end.

(** [parseFloat(s)] *)
Definition parseFloat (s : string) : float :=
  match scan_decimal (trimStart s) with
  | Some d => number_of_decimal d
  | None => NaN
  end.

Local Close Scope Z_scope.

(** *** Values

    A magnitude held by a transform entry is a Number or a String.  A field
    of an entry is an [option]: [None] stands for a field that is absent,
    [undefined] or [null].  The module tests a field with [!= null] or
    [== null], and compares it with [!==] to a magnitude that is not null:
    neither tells these apart. *)
Inductive prim :=
  | PNum (n : float)
  | PStr (s : string).

(** [a === b] on magnitudes. *)
Definition prim_strict_eq (a b : prim) : bool :=
  match a, b with
  | PNum x, PNum y => number_strict_eq x y
  | PStr x, PStr y => String.eqb x y
  | _, _ => false
  end.

(** [x != null] and [x == null] *)
Definition non_null {A} (x : option A) : bool :=
  match x with Some _ => true | None => false end.
Definition is_null {A} (x : option A) : bool := negb (non_null x).

(** The [Transform] object type of types/react-native: every field
    optional.  The payload of [matrix] is never read. *)
Record Transform := {
  perspective : option prim;
  rotate : option prim;
  rotateX : option prim;
  rotateY : option prim;
  rotateZ : option prim;
  scale : option prim;
  scaleX : option prim;
  scaleY : option prim;
  scaleZ : option prim;
  skewX : option prim;
  skewY : option prim;
  translateX : option prim;
  translateY : option prim;
  matrix : option (list float)
}.

(** An element of an array: an object read as a [Transform], or a primitive,
    which has none of the fields of a [Transform]. *)
Inductive element :=
  | EObj (t : Transform)
  | EStr (s : string)
  | ENum (n : float).

(** [e.field] *)
Definition get {A} (field : Transform -> option A) (e : element) : option A :=
  match e with
  | EObj t => field t
  | _ => None
  end.

(** Arrays and other objects carry their identity: two arrays are [===] when
    they are the same object, whatever they hold. *)
Definition ref := positive.

Inductive value :=
  | VUndefined
  | VNull
  | VBool (b : bool)
  | VNum (n : float)
  | VStr (s : string)
  | VArr (r : ref) (items : list element)
  | VObj (r : ref).
Arguments VArr r%_positive items.
Arguments VObj r%_positive.

Definition typeof (v : value) : string :=
  match v with
  | VUndefined => "undefined"
  | VNull | VArr _ _ | VObj _ => "object"
  | VBool _ => "boolean"
  | VNum _ => "number"
  | VStr _ => "string"
  end.

(** [a === b] *)
Definition strict_eq (a b : value) : bool :=
  match a, b with
  | VUndefined, VUndefined | VNull, VNull => true
  | VBool x, VBool y => Bool.eqb x y
  | VNum x, VNum y => number_strict_eq x y
  | VStr x, VStr y => String.eqb x y
  | VArr r _, VArr r' _ | VObj r, VObj r' => Pos.eqb r r'
  | _, _ => false
  end.

(** [a.includes(x)] for a string [x]: SameValueZero against each element. *)
Definition array_includes (items : list element) (x : string) : bool :=
  existsb
    (fun e => match e with EStr s => String.eqb s x | _ => false end)
    items.

(** An object used as a property bag.  [o[key]] is [undefined] for a key the
    object does not have (property names are taken not to name a member of
    [Object.prototype]). *)
Definition read (o : gmap string value) (key : string) : value :=
  default VUndefined (o !! key).

(** What a function call comes to: a result, or an exception thrown: a
    [TypeError] of the runtime, or an [Error] that a library throws. *)
Inductive error :=
  | TypeError (msg : string)
  | Error (msg : string).

Inductive completion (A : Type) :=
  | Return (a : A)
  | Throw (e : error).
Arguments Return {A} a.
Arguments Throw {A} e.

End JS.

Import JS.

(* ===================================================================== *)
(** ** The module: helpers *)
(* ===================================================================== *)

(** [ReactNativeStyle]: a bag of style properties. *)
Abbreviation Style := (gmap string value).

(** [INPUT_RANGE] *)
Definition INPUT_RANGE : list float := [0%float; 1%float].

Definition isNumber (num : value) : bool := String.eqb (typeof num) "number".

Definition isString (str : value) : bool := String.eqb (typeof str) "string".

(** [Array.isArray(v)] *)
Definition Array_isArray (v : value) : bool :=
  match v with
  | VArr _ _ => true
  | _ => false
  end.

(** [value.includes('skew')], for [value] an array. *)
Definition includes_skew (value : value) : bool :=
  match value with
  | VArr _ items => array_includes items "skew"
  | _ => false
  end.

(** The [for ... in] loop of [canUseNativeDriver], over the properties of
    the object. *)
Fixpoint canUseNativeDriver_loop (properties : list (string * value)) : bool :=
  match properties with
  | [] => true
  | (property, value) :: rest =>
      if String.eqb property "opacity" then canUseNativeDriver_loop rest
      else if String.eqb property "transform"
              && Array_isArray value
              && negb (includes_skew value)
      then canUseNativeDriver_loop rest
      else false
  end.

Definition canUseNativeDriver (transitionProperties : option Style) : bool :=
  match transitionProperties with
  | None => false
  | Some o => canUseNativeDriver_loop (map_to_list o)
  end.

(** The curves of [Easing] (react-native), as the calls that build them.
    [BezierEasing curve] is the function that [Easing.bezier] returns for
    the arguments [curve]. *)
Inductive EasingFunction :=
  | Easing_ease
  | Easing_in (f : EasingFunction)
  | Easing_out (f : EasingFunction)
  | Easing_inOut (f : EasingFunction)
  | BezierEasing (curve : list float)
  | Easing_linear.

(** [x >= 0 && x <= 1] for an argument [x] of a call: [None] stands for an
    argument that the call does not give, which is [undefined] in the
    callee; both comparisons are false of it, and of NaN. *)
Definition in_unit_range (x : option float) : bool :=
  match x with
  | Some x' => PrimFloat.leb 0 x' && PrimFloat.leb x' 1
  | None => false
  end.

(** [Easing.bezier(...curve)], which is [bezier(x1, y1, x2, y2)] of
    react-native: it throws unless [x1] and [x2] are in the range [0, 1];
    it reads its first four arguments. *)
Definition Easing_bezier (curve : list float) : completion EasingFunction :=
  if in_unit_range (curve !! 0%nat) && in_unit_range (curve !! 2%nat)
  then Return (BezierEasing curve)
  else Throw (Error "bezier x values must be in [0, 1] range").

(** [input === s] for [input : ?string] *)
Definition input_is (input : option string) (s : string) : bool :=
  match input with
  | Some i => String.eqb i s
  | None => false
  end.

(** [x.split(sep)] where [x] may be [undefined]. *)
Definition split_of (x : option string) (sep : string)
  : completion (list string) :=
  match x with
  | Some s => Return (split s sep)
  | None =>
      Throw (TypeError "Cannot read properties of undefined (reading 'split')")
  end.

Definition getEasingFunction (input : option string)
  : completion EasingFunction :=
  if input_is input "ease" then Return Easing_ease
  else if input_is input "ease-in" then Return (Easing_in Easing_ease)
  else if input_is input "ease-out" then Return (Easing_out Easing_ease)
  else if input_is input "ease-in-out" then Return (Easing_inOut Easing_ease)
  else
    match input with
    | Some input' =>
        if includes input' "cubic-bezier" then
          let chunk := split input' "cubic-bezier(" !! 1%nat in
          match split_of chunk ")" with
          | Throw e => Throw e
          | Return pieces =>
              let str := pieces !! 0%nat in
              match split_of str "," with
              | Throw e => Throw e
              | Return points =>
                  let curve :=
                    map (fun point => parseFloat (trim point)) points in
                  Easing_bezier curve
              end
          end
        else Return Easing_linear
    | None => Return Easing_linear
    end.

Definition getTransitionProperties (property : value) : option (list string) :=
  if strict_eq property (VStr "all") then Some ["opacity"; "transform"]
  else
    match property with
    | VStr s => Some (map (fun p => trim p) (split s ","))
    | _ => None
    end.

(** The condition of the loop of [transformsHaveSameLengthTypesAndOrder] on
    [transformsA[i]] and [transformsB[i]]. *)
Definition types_differ (a b : element) : bool :=
  (non_null (get perspective a) && is_null (get perspective b))
  || (non_null (get rotate a) && is_null (get rotate b))
  || (non_null (get rotateX a) && is_null (get rotateX b))
  || (non_null (get rotateY a) && is_null (get rotateY b))
  || (non_null (get rotateZ a) && is_null (get rotateZ b))
  || (non_null (get scale a) && is_null (get scale b))
  || (non_null (get scaleX a) && is_null (get scaleX b))
  || (non_null (get scaleY a) && is_null (get scaleY b))
  || (non_null (get scaleZ a) && is_null (get scaleZ b))
  || (non_null (get skewX a) && is_null (get skewX b))
  || (non_null (get skewY a) && is_null (get skewY b))
  || (non_null (get translateX a) && is_null (get translateX b))
  || (non_null (get translateY a) && is_null (get translateY b)).

(** The loop itself, on two arrays of one length. *)
Fixpoint types_loop (transformsA transformsB : list element) : bool :=
  match transformsA, transformsB with
  | a :: restA, b :: restB =>
      if types_differ a b then false else types_loop restA restB
  | _, _ => true
  end.

Definition transformsHaveSameLengthTypesAndOrder
    (transformsA transformsB : list element) : bool :=
  if negb (Nat.eqb (length transformsA) (length transformsB)) then false
  else types_loop transformsA transformsB.

(** [x != null && x !== y] on two fields. *)
Definition differs (x y : option prim) : bool :=
  match x with
  | None => false
  | Some a =>
      match y with
      | Some b => negb (prim_strict_eq a b)
      | None => true
      end
  end.

(** The condition of the loop of [transformListsAreEqual] on [tA], [tB]. *)
Definition values_differ (tA tB : element) : bool :=
  differs (get perspective tA) (get perspective tB)
  || differs (get rotate tA) (get rotate tB)
  || differs (get rotateX tA) (get rotateX tB)
  || differs (get rotateY tA) (get rotateY tB)
  || differs (get rotateZ tA) (get rotateZ tB)
  || differs (get scale tA) (get scale tB)
  || differs (get scaleX tA) (get scaleX tB)
  || differs (get scaleY tA) (get scaleY tB)
  || differs (get scaleZ tA) (get scaleZ tB)
  || differs (get skewX tA) (get skewX tB)
  || differs (get skewY tA) (get skewY tB)
  || differs (get translateX tA) (get translateX tB)
  || differs (get translateY tA) (get translateY tB).

Fixpoint values_loop (transformsA transformsB : list element) : bool :=
  match transformsA, transformsB with
  | tA :: restA, tB :: restB =>
      if values_differ tA tB then false else values_loop restA restB
  | _, _ => true
  end.

Definition transformListsAreEqual
    (transformsA transformsB : list element) : bool :=
  if negb (transformsHaveSameLengthTypesAndOrder transformsA transformsB)
  then false
  else values_loop transformsA transformsB.

(** [typeof o] for [o : ReactNativeStyle | void] *)
Definition typeof_style (o : option Style) : string :=
  match o with
  | None => "undefined"
  | Some _ => "object"
  end.

(** [Array.isArray(prevValue) && Array.isArray(nextValue) &&
    !transformListsAreEqual(prevValue, nextValue)] *)
Definition transforms_changed (prevValue nextValue : value) : bool :=
  match prevValue, nextValue with
  | VArr _ prevItems, VArr _ nextItems =>
      negb (transformListsAreEqual prevItems nextItems)
  | _, _ => false
  end.

(** The [for ... in] loop of [transitionStyleHasChanged] over the properties
    of [next]. *)
Fixpoint hasChanged_loop (prev : Style) (next : list (string * value)) : bool :=
  match next with
  | [] => false
  | (propKey, nextValue) :: rest =>
      let prevValue := read prev propKey in
      if negb (String.eqb (typeof prevValue) (typeof nextValue)) then true
      else if transforms_changed prevValue nextValue then true
      else if negb (strict_eq prevValue nextValue) then true
      else hasChanged_loop prev rest
  end.

Definition transitionStyleHasChanged (next prev : option Style) : bool :=
  match next with
  | None => false
  | Some next' =>
      if negb (String.eqb (typeof_style prev) (typeof_style next)) then true
      else
        match prev with
        | Some prev' => hasChanged_loop prev' (map_to_list next')
        | None => false
        end
  end.

(* ===================================================================== *)
(** ** The module: the hook *)
(* ===================================================================== *)

Record TransitionMetadata := {
  delay : float;
  duration : float;
  timingFunction : option string;
  shouldUseNativeDriver : bool
}.

(** An [Animated.Value] object, by its identity. *)
Inductive AnimatedValue := Animated_Value (id : nat).

(** An end of an output range: a value as it is, [+v], or [String(v)].  The
    two coercions are recorded with their operand. *)
Inductive operand :=
  | Same (v : value)
  | ToNumber (v : value)
  | ToString (v : value).

(** The result of [animatedValue.interpolate({inputRange, outputRange})]. *)
Record Interpolation := {
  source : AnimatedValue;
  inputRange : list float;
  outputRange : list operand
}.

Definition interpolate (animatedValue : AnimatedValue)
    (outputRange : list operand) : Interpolation :=
  {| source := animatedValue;
     inputRange := INPUT_RANGE;
     outputRange := outputRange |}.

(** A value of an [AnimatedStyle]: a style value, an interpolation, or the
    array [animatedTransforms] of objects that map one transform kind to an
    interpolation. *)
Inductive animated :=
  | Plain (v : value)
  | Interpolated (i : Interpolation)
  | Transforms (animatedTransforms : list (gmap string Interpolation)).

Abbreviation AnimatedStyle := (gmap string animated).

(** The value held by a field of a transform entry. *)
Definition of_field (x : option prim) : value :=
  match x with
  | Some (PNum n) => VNum n
  | Some (PStr s) => VStr s
  | None => VUndefined
  end.

(** The messages handed to [warnMsg]. *)
Inductive diagnostic :=
  | NumberOrTypesMustBeTheSame
  | MatrixCannotBeAnimated
  | TypesMustBeTheSame (before after : list element).

(** [if (__DEV__) { warnMsg(d) }] *)
Definition warn (dev : bool) (d : diagnostic) (log : list diagnostic)
  : list diagnostic :=
  if dev then log ++ [d] else log.

(** [a ?? b] *)
Definition coalesce (a b : value) : value :=
  match a with
  | VUndefined | VNull => b
  | _ => a
  end.

(** [previousStyle?.[property]] *)
Definition read_opt (o : option Style) (property : string) : value :=
  match o with
  | Some o' => read o' property
  | None => VUndefined
  end.

(** The body of the loop that fills [animatedTransforms]: the object pushed
    for [transforms[i]] and [refTransforms[i]], if one is. *)
Definition animate_transform (animatedValue : AnimatedValue)
    (singleTransform singleRefTransform : element)
  : option (gmap string Interpolation) :=
  let number f := ToNumber (of_field (get f singleRefTransform)) in
  let same f := Same (of_field (get f singleRefTransform)) in
  let to f := Same (of_field (get f singleTransform)) in
  let both f :=
    non_null (get f singleRefTransform) && non_null (get f singleTransform) in
  if non_null (get perspective singleTransform) then
    Some {[ "perspective" :=
              interpolate animatedValue [number perspective; to perspective] ]}
  else if both rotate then
    Some {[ "rotate" := interpolate animatedValue [same rotate; to rotate] ]}
  else if both rotateX then
    Some {[ "rotateX" := interpolate animatedValue [same rotateX; to rotateX] ]}
  else if both rotateY then
    Some {[ "rotateY" := interpolate animatedValue [same rotateY; to rotateY] ]}
  else if both rotateZ then
    Some {[ "rotateZ" := interpolate animatedValue [same rotateZ; to rotateZ] ]}
  else if non_null (get scale singleTransform) then
    Some {[ "scale" := interpolate animatedValue [number scale; to scale] ]}
  else if non_null (get scaleX singleTransform) then
    Some {[ "scaleX" := interpolate animatedValue [number scaleX; to scaleX] ]}
  else if non_null (get scaleY singleTransform) then
    Some {[ "scaleY" := interpolate animatedValue [number scaleY; to scaleY] ]}
  else if non_null (get scaleZ singleTransform) then
    Some {[ "scaleZ" := interpolate animatedValue [number scaleZ; to scaleZ] ]}
  else if both skewX then
    Some {[ "skewX" := interpolate animatedValue [same skewX; to skewX] ]}
  else if both skewY then
    Some {[ "skewY" := interpolate animatedValue [same skewY; to skewY] ]}
  else if both translateX then
    Some {[ "translateX" :=
              interpolate animatedValue [number translateX; to translateX] ]}
  else if both translateY then
    Some {[ "translateY" :=
              interpolate animatedValue [number translateY; to translateY] ]}
  else None.

(** The loop, on two arrays of one length. *)
Fixpoint animate_transforms (animatedValue : AnimatedValue)
    (transforms refTransforms : list element)
  : list (gmap string Interpolation) :=
  match transforms, refTransforms with
  | singleTransform :: rest, singleRefTransform :: refRest =>
      match animate_transform animatedValue singleTransform singleRefTransform
      with
      | Some o => o :: animate_transforms animatedValue rest refRest
      | None => animate_transforms animatedValue rest refRest
      end
  | _, _ => []
  end.

(** [for (const transform of transforms) if (transform.matrix != null) ...] *)
Definition has_matrix (transforms : list element) : bool :=
  existsb (fun transform => non_null (get matrix transform)) transforms.

(** The branch [property === 'transform' && Array.isArray(value)]: the value
    stored in [animatedStyle[property]] and the log of warnings. *)
Definition animate_transform_property (dev : bool)
    (animatedValue : AnimatedValue) (value startValue : value)
    (transforms : list element) (log : list diagnostic)
  : animated * list diagnostic :=
  match startValue with
  | VArr _ refTransforms =>
      if negb (Nat.eqb (length transforms) (length refTransforms)) then
        (Plain value, warn dev NumberOrTypesMustBeTheSame log)
      else if has_matrix transforms then
        (Plain value, warn dev MatrixCannotBeAnimated log)
      else if negb (transformsHaveSameLengthTypesAndOrder
                      transforms refTransforms) then
        (Plain value, warn dev (TypesMustBeTheSame transforms refTransforms) log)
      else
        (Transforms (animate_transforms animatedValue transforms refTransforms),
         log)
  | _ => (Plain value, warn dev NumberOrTypesMustBeTheSame log)
  end.

(** The function reduced over [Object.entries(transitionStyle)]; the
    accumulator is [animatedStyle], with the log of warnings. *)
Definition animate_entry (dev : bool) (animatedValue : option AnimatedValue)
    (previousStyle : option Style)
    (acc : AnimatedStyle * list diagnostic) (entry : string * value)
  : AnimatedStyle * list diagnostic :=
  let '(animatedStyle, log) := acc in
  let '(property, value) := entry in
  let startValue := coalesce (read_opt previousStyle property) value in
  match animatedValue with
  | None => (<[property := Plain value]> animatedStyle, log)
  | Some animatedValue' =>
      if strict_eq startValue value then
        (<[property := Plain value]> animatedStyle, log)
      else if String.eqb (typeof value) "number" then
        (<[property :=
             Interpolated
               (interpolate animatedValue' [ToNumber startValue; Same value])]>
           animatedStyle, log)
      else if String.eqb (typeof value) "string" then
        (<[property :=
             Interpolated
               (interpolate animatedValue' [ToString startValue; Same value])]>
           animatedStyle, log)
      else if String.eqb property "transform" then
        match value with
        | VArr _ transforms =>
            let '(out, log') :=
              animate_transform_property dev animatedValue' value startValue
                transforms log in
            (<[property := out]> animatedStyle, log')
        | _ => (animatedStyle, log)
        end
      else (animatedStyle, log)
  end.

(** [outputAnimatedStyle], with the warnings raised while it is built: the
    reduction over [Object.entries(transitionStyle)]. *)
Definition outputAnimatedStyle_of (dev : bool)
    (animatedValue : option AnimatedValue) (previousStyle : option Style)
    (transitionStyle : Style) : AnimatedStyle * list diagnostic :=
  foldl (animate_entry dev animatedValue previousStyle) (∅, [])
    (map_to_list transitionStyle).

(** The state kept by the three [useState] cells, and the number of
    [Animated.Value] objects created so far. *)
Record State := {
  currentStyle : option Style;
  previousStyle : option Style;
  animatedValue : option AnimatedValue;
  allocated : nat
}.

(** The state on mount: the initial values given to [useState]. *)
Definition mount (style : Style) : State :=
  {| currentStyle := Some style;
     previousStyle := None;
     animatedValue := None;
     allocated := 0 |}.

(** One call of the hook: the style returned, the state after the state
    setters it called, the warnings, and the metadata that the
    synchronising effect stores in [transitionMetadataRef]. *)
Record Render := {
  returned : AnimatedStyle;
  state_after : State;
  warnings : list diagnostic;
  metadata : TransitionMetadata
}.

(** The reduction that builds [transitionStyle] from the property names. *)
Definition pick (style : Style) (output : Style) (property : string) : Style :=
  let value := read style property in
  if isString value || isNumber value || Array_isArray value
  then <[property := value]> output
  else output.

Definition transitionStyle_of (style : Style) : option Style :=
  (fun names => foldl (pick style) ∅ names)
    <$> getTransitionProperties (read style "transitionProperty").

(** [...styleWithAnimations] of the destructuring of [style]. *)
Definition styleWithAnimations_of (style : Style) : Style :=
  delete "transitionTimingFunction"
    (delete "transitionProperty"
       (delete "transitionDuration" (delete "transitionDelay" style))).

Definition metadata_of (style : Style) : TransitionMetadata :=
  let _delay := read style "transitionDelay" in
  let _duration := read style "transitionDuration" in
  let _timingFunction := read style "transitionTimingFunction" in
  {| delay := match _delay with VNum n => n | _ => 0%float end;
     duration := match _duration with VNum n => n | _ => 16%float end;
     timingFunction := match _timingFunction with VStr s => Some s | _ => None end;
     shouldUseNativeDriver := canUseNativeDriver (transitionStyle_of style) |}.

Definition useStyleTransition (dev : bool) (st : State) (style : Style)
  : Render :=
  let styleWithAnimations := styleWithAnimations_of style in
  let transitionStyle := transitionStyle_of style in
  if transitionStyleHasChanged transitionStyle (currentStyle st) then
    {| returned := Plain <$> style;
       state_after :=
         {| currentStyle := Some style;
            previousStyle := currentStyle st;
            animatedValue := Some (Animated_Value (allocated st));
            allocated := S (allocated st) |};
       warnings := [];
       metadata := metadata_of style |}
  else
    match transitionStyle with
    | None =>
        {| returned := Plain <$> style;
           state_after := st;
           warnings := [];
           metadata := metadata_of style |}
    | Some transitionStyle' =>
        let '(outputAnimatedStyle, log) :=
          outputAnimatedStyle_of dev (animatedValue st) (previousStyle st)
            transitionStyle' in
        {| returned := outputAnimatedStyle ∪ (Plain <$> styleWithAnimations);
           state_after := st;
           warnings := log;
           metadata := metadata_of style |}
    end.

(** The effect that starts a transition: the animation it starts, when
    [animatedValue] is set. *)
Record TimingConfig := {
  toValue : float;
  timing_duration : float;
  easing : EasingFunction;
  useNativeDriver : bool
}.

Inductive Animation :=
  | Animated_delay (time : float)
  | Animated_timing (value : AnimatedValue) (config : TimingConfig)
  | Animated_sequence (animations : list Animation).

Definition trigger (animatedValue : option AnimatedValue)
    (current : TransitionMetadata) : completion (option Animation) :=
  match animatedValue with
  | None => Return None
  | Some animatedValue' =>
      match getEasingFunction (timingFunction current) with
      | Throw e => Throw e
      | Return easing' =>
          Return
            (Some
               (Animated_sequence
                  [Animated_delay (delay current);
                   Animated_timing animatedValue'
                     {| toValue := 1%float;
                        timing_duration := duration current;
                        easing := easing';
                        useNativeDriver := shouldUseNativeDriver current |}]))
      end
  end.

(* ===================================================================== *)
(** ** The module, step by step *)
(* ===================================================================== *)

(** The guard of the reduction that builds [transitionStyle] (line 211). *)
Definition transitionable (value : value) : bool :=
  isString value || isNumber value || Array_isArray value.

(** The three tests of the loop of [transitionStyleHasChanged] on one
    property of [next] (lines 166-186). *)
Definition entry_changed (prev : Style) (propKey : string) (nextValue : value)
  : bool :=
  let prevValue := read prev propKey in
  negb (String.eqb (typeof prevValue) (typeof nextValue))
  || transforms_changed prevValue nextValue
  || negb (strict_eq prevValue nextValue).

(** What the reduction that builds [outputAnimatedStyle] stores under the
    name of one entry (lines 291-506), if it stores anything. *)
Definition rendered (dev : bool) (animatedValue : option AnimatedValue)
    (previousStyle : option Style) (property : string) (value : value)
  : option animated :=
  match animatedValue with
  | None => Some (Plain value)
  | Some animatedValue' =>
      let startValue := coalesce (read_opt previousStyle property) value in
      if strict_eq startValue value then Some (Plain value)
      else if isNumber value then
        Some (Interpolated
                (interpolate animatedValue' [ToNumber startValue; Same value]))
      else if isString value then
        Some (Interpolated
                (interpolate animatedValue' [ToString startValue; Same value]))
      else if String.eqb property "transform" then
        match value with
        | VArr _ transforms =>
            Some (animate_transform_property dev animatedValue' value
                    startValue transforms []).1
        | _ => None
        end
      else None
  end.

(** The render that follows a render, with the same style: a state setter
    called while rendering makes React render the component again at once,
    with the new state. *)
Definition rerender (dev : bool) (st : State) (style : Style) : Render :=
  useStyleTransition dev (state_after (useStyleTransition dev st style)) style.

(** The state after the hook has rendered, from mount, the styles of a list
    in turn; the first one is the style it is mounted with. *)
Definition render_all (dev : bool) (first : Style) (rest : list Style)
  : State :=
  foldl (fun st style => state_after (useStyleTransition dev st style))
    (mount first) (first :: rest).

(* ===================================================================== *)
(** ** The vocabulary of the specification *)
(* ===================================================================== *)

Module Spec.

(** The transform kinds that carry a magnitude, in the priority order of the
    specification. *)
Inductive kind :=
  | Perspective | Rotate | RotateX | RotateY | RotateZ
  | Scale | ScaleX | ScaleY | ScaleZ
  | SkewX | SkewY | TranslateX | TranslateY.

#[global] Instance kind_eq_dec : EqDecision kind.
Proof. solve_decision. Defined.

Definition kinds : list kind :=
  [Perspective; Rotate; RotateX; RotateY; RotateZ; Scale; ScaleX; ScaleY;
   ScaleZ; SkewX; SkewY; TranslateX; TranslateY].

Definition field (k : kind) : Transform -> option prim :=
  match k with
  | Perspective => perspective | Rotate => rotate | RotateX => rotateX
  | RotateY => rotateY | RotateZ => rotateZ | Scale => scale
  | ScaleX => scaleX | ScaleY => scaleY | ScaleZ => scaleZ
  | SkewX => skewX | SkewY => skewY | TranslateX => translateX
  | TranslateY => translateY
  end.

Definition name (k : kind) : string :=
  match k with
  | Perspective => "perspective" | Rotate => "rotate" | RotateX => "rotateX"
  | RotateY => "rotateY" | RotateZ => "rotateZ" | Scale => "scale"
  | ScaleX => "scaleX" | ScaleY => "scaleY" | ScaleZ => "scaleZ"
  | SkewX => "skewX" | SkewY => "skewY" | TranslateX => "translateX"
  | TranslateY => "translateY"
  end.

(** A kind is present in an entry when its field is not null. *)
Definition present (k : kind) (e : element) : bool :=
  non_null (get (field k) e).

(** The kinds whose start magnitude the source passes through [+] before it
    hands it to the interpolation: the perspective, the scales and the
    translations. *)
Definition coerced (k : kind) : bool :=
  match k with
  | Perspective | Scale | ScaleX | ScaleY | ScaleZ | TranslateX | TranslateY =>
      true
  | _ => false
  end.

(** The first kind, in priority order, that an entry carries. *)
Definition first_present (e : element) : option kind :=
  List.find (fun k => present k e) kinds.

(** The output entry of the decomposition: the one interpolation, from the
    magnitude of the reference entry to that of the entry, under the first
    kind the entry carries; nothing for an entry that carries no kind. *)
Definition decompose (animatedValue : AnimatedValue) (t r : element)
  : option (gmap string Interpolation) :=
  match first_present t with
  | Some k =>
      let from := of_field (get (field k) r) in
      Some {[ name k :=
                interpolate animatedValue
                  [if coerced k then ToNumber from else Same from;
                   Same (of_field (get (field k) t))] ]}
  | None => None
  end.

Definition decompose_all (animatedValue : AnimatedValue)
    (transforms refTransforms : list element)
  : list (gmap string Interpolation) :=
  omap (fun '(t, r) => decompose animatedValue t r)
    (zip transforms refTransforms).

(** Two fields that hold identical ([===]) magnitudes, or are both null. *)
Definition same_field (x y : option prim) : bool :=
  match x, y with
  | Some a, Some b => prim_strict_eq a b
  | None, None => true
  | _, _ => false
  end.

(** A stack with a [skewX] or [skewY] operation. *)
Definition has_skew (items : list element) : bool :=
  existsb (fun e => present SkewX e || present SkewY e) items.

(** Eligibility for the native driver as the specification words it. *)
Definition eligible (properties : Style) : Prop :=
  map_Forall
    (fun property value =>
       property = "opacity"
       \/ (property = "transform"
           /\ exists r items, value = VArr r items /\ has_skew items = false))
    properties.

(** A magnitude, an entry, a value that holds NaN. *)
Definition prim_is_NaN (x : option prim) : bool :=
  match x with
  | Some (PNum n) => isNaN n
  | _ => false
  end.

Definition element_has_NaN (e : element) : bool :=
  existsb (fun k => prim_is_NaN (get (field k) e)) kinds.

Definition value_has_NaN (v : value) : bool :=
  match v with
  | VNum n => isNaN n
  | VArr _ items => existsb element_has_NaN items
  | _ => false
  end.

Definition snapshot_has_NaN (S : option Style) : bool :=
  match S with
  | Some properties =>
      existsb (fun entry => value_has_NaN entry.2) (map_to_list properties)
  | None => false
  end.

(** Two stacks of one length whose entries are identical ([===]) in every
    kind but the matrix. *)
Definition same_but_matrix (a b : list element) : bool :=
  Nat.eqb (length a) (length b)
  && forallb
       (fun '(ea, eb) =>
          forallb
            (fun k => same_field (get (field k) ea) (get (field k) eb)) kinds)
       (zip a b).

(** What the loop of [canUseNativeDriver] accepts: [opacity], and
    [transform] with an array that does not hold the string ['skew']. *)
Definition accepted (property : string) (value : value) : Prop :=
  property = "opacity"
  \/ (property = "transform"
      /\ exists r items, value = VArr r items
                         /\ array_includes items "skew" = false).

(** A kind that an entry of [to] carries and the entry of [from] at the
    same position lacks. *)
Definition kind_missing (to from : list element) : bool :=
  existsb
    (fun '(t, f) => existsb (fun k => present k t && negb (present k f)) kinds)
    (zip to from).

(** A start value and a target stack that cannot be interpolated: the start
    value is not a stack, the lengths differ, a kind of the target is
    missing from the start at its position, or the target holds a matrix. *)
Definition incompatible (from : value) (to : list element) : bool :=
  match from with
  | VArr _ refTransforms =>
      negb (Nat.eqb (length to) (length refTransforms))
      || kind_missing to refTransforms
      || has_matrix to
  | _ => true
  end.


(** The place of a kind in the priority order. *)
Definition rank (k : kind) : nat :=
  match k with
  | Perspective => 0 | Rotate => 1 | RotateX => 2 | RotateY => 3
  | RotateZ => 4 | Scale => 5 | ScaleX => 6 | ScaleY => 7 | ScaleZ => 8
  | SkewX => 9 | SkewY => 10 | TranslateX => 11 | TranslateY => 12
  end.

(** What one entry of [transitionStyle] contributes to [outputAnimatedStyle]:
    the value stored under its name, if one is, and its warnings. *)
Definition entry_value (dev : bool) (animatedValue : option AnimatedValue)
    (previousStyle : option Style) (property : string) (value : value)
  : option animated :=
  (animate_entry dev animatedValue previousStyle (∅, []) (property, value)).1
    !! property.

Definition entry_log (dev : bool) (animatedValue : option AnimatedValue)
    (previousStyle : option Style) (property : string) (value : value)
  : list diagnostic :=
  (animate_entry dev animatedValue previousStyle (∅, []) (property, value)).2.

(** The four reserved directive keys. *)
Definition reserved : list string :=
  ["transitionDelay"; "transitionDuration"; "transitionProperty";
   "transitionTimingFunction"].

(** The timing-function forms of the specification: the four keywords and
    [cubic-bezier(a,b,c,d)], four comma-separated arguments between the
    parentheses. *)
Definition cubic_bezier_form (s : string) : bool :=
  String.prefix "cubic-bezier(" s
  && match split (drop_str 13 s) ")" with
     | [args; ""] => Nat.eqb (length (split args ",")) 4
     | _ => false
     end.

Definition keyword (s : string) : bool :=
  String.eqb s "ease" || String.eqb s "ease-in" || String.eqb s "ease-out"
  || String.eqb s "ease-in-out".

Definition recognized (input : option string) : bool :=
  match input with
  | Some s => keyword s || cubic_bezier_form s
  | None => false
  end.

(** The text of [s] before its first occurrence of [sep]; all of [s] when
    there is none. *)
Definition before (sep s : string) : string :=
  match indexOf s sep with
  | Some n => take_str n s
  | None => s
  end.

(** The control points read from the text that follows [cubic-bezier(]. *)
Definition control_points (rest : string) : list float :=
  map (fun point => parseFloat (trim point))
    (split (before ")" (before "cubic-bezier(" rest)) ",").

(** White space at the ends of a string. *)
Fixpoint all_white (s : string) : bool :=
  match s with
  | "" => true
  | String c s' => is_white_space c && all_white s'
  end.

Definition starts_white (s : string) : bool :=
  match s with
  | "" => false
  | String c _ => is_white_space c
  end.

Fixpoint ends_white (s : string) : bool :=
  match s with
  | "" => false
  | String c "" => is_white_space c
  | String _ s' => ends_white s'
  end.

(** The transform entry that carries nothing, the one that carries one
    magnitude, and the one that carries a matrix. *)
Definition no_transform : Transform :=
  {| perspective := None; rotate := None; rotateX := None; rotateY := None;
     rotateZ := None; scale := None; scaleX := None; scaleY := None;
     scaleZ := None; skewX := None; skewY := None; translateX := None;
     translateY := None; matrix := None |}.

Definition single (k : kind) (x : prim) : Transform :=
  {| perspective := if decide (k = Perspective) then Some x else None;
     rotate := if decide (k = Rotate) then Some x else None;
     rotateX := if decide (k = RotateX) then Some x else None;
     rotateY := if decide (k = RotateY) then Some x else None;
     rotateZ := if decide (k = RotateZ) then Some x else None;
     scale := if decide (k = Scale) then Some x else None;
     scaleX := if decide (k = ScaleX) then Some x else None;
     scaleY := if decide (k = ScaleY) then Some x else None;
     scaleZ := if decide (k = ScaleZ) then Some x else None;
     skewX := if decide (k = SkewX) then Some x else None;
     skewY := if decide (k = SkewY) then Some x else None;
     translateX := if decide (k = TranslateX) then Some x else None;
     translateY := if decide (k = TranslateY) then Some x else None;
     matrix := None |}.

Definition with_matrix (payload : list float) : Transform :=
  {| perspective := None; rotate := None; rotateX := None; rotateY := None;
     rotateZ := None; scale := None; scaleX := None; scaleY := None;
     scaleZ := None; skewX := None; skewY := None; translateX := None;
     translateY := None; matrix := Some payload |}.

End Spec.

(* ===================================================================== *)
(** ** Facts about the runtime's strings *)
(* ===================================================================== *)

Module StringFacts.

Import Spec.

Lemma append_cons c s t : String c s +:+ t = String c (s +:+ t).
Proof. reflexivity. Qed.

Lemma append_assoc s t u : (s +:+ t) +:+ u = s +:+ (t +:+ u).
Proof. induction s as [|c s IH]; [done|]. rewrite !append_cons. by f_equal. Qed.

Lemma length_append s t :
  String.length (s +:+ t) = String.length s + String.length t.
Proof. induction s as [|c s IH]; [done|]. rewrite append_cons. simpl. by rewrite IH. Qed.

Lemma take_drop_str n s : take_str n s +:+ drop_str n s = s.
Proof.
  revert s; induction n as [|n IH]; intros [|c s]; try done.
  simpl. rewrite append_cons. by rewrite IH.
Qed.

Lemma drop_drop_str n m s : drop_str m (drop_str n s) = drop_str (n + m) s.
Proof.
  revert s; induction n as [|n IH]; intros [|c s]; try done.
  - by destruct m.
  - apply IH.
Qed.

Lemma take_str_app s t : take_str (String.length s) (s +:+ t) = s.
Proof. induction s as [|c s IH]; [by destruct t|]. rewrite append_cons. simpl. by rewrite IH. Qed.

Lemma drop_str_app s t : drop_str (String.length s) (s +:+ t) = t.
Proof. induction s as [|c s IH]; [by destruct t|]. rewrite append_cons. exact IH. Qed.

Lemma indexOf_unfold s sub :
  indexOf s sub =
    if String.prefix sub s then Some 0
    else match s with
         | "" => None
         | String _ s' => S <$> indexOf s' sub
         end.
Proof. by destruct s. Qed.

Lemma prefix_append p s : String.prefix p (p +:+ s) = true.
Proof.
  induction p as [|c p IH]; [by destruct s|]. rewrite append_cons. simpl.
  by destruct (ascii_dec c c).
Qed.

Lemma prefix_app p s :
  String.prefix p s = true -> s = p +:+ drop_str (String.length p) s.
Proof.
  revert s; induction p as [|c p IH]; intros s H.
  - by destruct s.
  - destruct s as [|a s]; [done|]. simpl in H.
    destruct (ascii_dec c a) as [->|]; [|done].
    rewrite append_cons. simpl. f_equal. by apply IH.
Qed.

Lemma prefix_take p n s :
  String.prefix p (take_str n s) = true -> String.prefix p s = true.
Proof.
  revert n s; induction p as [|c p IH]; intros n s H; [by destruct s|].
  destruct n as [|n], s as [|a s]; try done. simpl in *.
  destruct (ascii_dec c a); [|done]. by eapply IH.
Qed.

(** The leftmost occurrence splits the string in three. *)
Lemma indexOf_Some s sub n :
  indexOf s sub = Some n ->
  s = take_str n s +:+ sub +:+ drop_str (n + String.length sub) s.
Proof.
  revert n; induction s as [|a s IH]; intros n; rewrite indexOf_unfold.
  - destruct (String.prefix sub "") eqn:Hp; [|done]. intros [= <-].
    by apply prefix_app in Hp.
  - destruct (String.prefix sub (String a s)) eqn:Hp.
    + intros [= <-]. by apply prefix_app in Hp.
    + destruct (indexOf s sub) as [m|] eqn:Hm; [|done]. intros [= <-].
      simpl. rewrite append_cons. f_equal. by apply IH.
Qed.

(** No occurrence starts before the leftmost one. *)
Lemma indexOf_take s sub n :
  sub <> "" -> indexOf s sub = Some n -> indexOf (take_str n s) sub = None.
Proof.
  intros Hne. revert n; induction s as [|a s IH]; intros n; rewrite indexOf_unfold.
  - destruct sub; [done|]. done.
  - destruct (String.prefix sub (String a s)) eqn:Hp.
    + intros [= <-]. simpl. by destruct sub.
    + destruct (indexOf s sub) as [m|] eqn:Hm; [|done]. intros [= <-].
      change (take_str (S m) (String a s)) with (String a (take_str m s)).
      rewrite (indexOf_unfold (String a (take_str m s))).
      destruct (String.prefix sub (String a (take_str m s))) eqn:Hp'.
      * apply (prefix_take _ (S m) (String a s)) in Hp'. congruence.
      * by rewrite (IH m).
Qed.

Lemma indexOf_prefix p s : indexOf (p +:+ s) p = Some 0.
Proof. rewrite indexOf_unfold. by rewrite prefix_append. Qed.

(** A one-character needle that the head of the string lacks. *)
Lemma indexOf_char_app c s t :
  indexOf s (String c "") = None ->
  indexOf (s +:+ String c t) (String c "") = Some (String.length s).
Proof.
  induction s as [|a s IH].
  - intros _. change ("" +:+ String c t) with (String c t).
    rewrite indexOf_unfold. simpl. destruct (ascii_dec c c); [|done].
    by destruct t.
  - rewrite append_cons, !(indexOf_unfold (String a _)). simpl.
    destruct (ascii_dec c a) as [->|Hne].
    + by destruct s.
    + destruct (indexOf s (String c "")) eqn:Hs; [done|]. intros _.
      by rewrite IH.
Qed.

Lemma split_go_skip sep u s :
  split_go sep (String.length u) (u +:+ s) = split_go sep 0 s.
Proof. induction u as [|c u IH]; [done|]. rewrite append_cons. exact IH. Qed.

Lemma split_go_unfold sep a s :
  split_go sep 0 (String a s) =
    if String.prefix sep (String a s)
    then ("", let '(p, ps) := split_go sep (String.length sep - 1) s in p :: ps)
    else let '(p, ps) := split_go sep 0 s in (String a p, ps).
Proof. reflexivity. Qed.

Lemma split_go_hit sep s :
  sep <> "" -> String.prefix sep s = true ->
  split_go sep 0 s =
    ("", let '(p, ps) := split_go sep 0 (drop_str (String.length sep) s)
         in p :: ps).
Proof.
  intros Hne Hp. destruct sep as [|c sep]; [done|].
  pose proof (prefix_app _ _ Hp) as Hs.
  destruct s as [|a s]; [done|].
  rewrite split_go_unfold, Hp. f_equal.
  rewrite append_cons in Hs. simpl in Hs. injection Hs as _ Hs.
  simpl drop_str. set (r := drop_str _ s) in *. rewrite Hs at 1.
  replace (String.length (String c sep) - 1) with (String.length sep)
    by (simpl; lia).
  by rewrite split_go_skip.
Qed.

(** [split] cuts at the leftmost occurrence of the separator and goes on
    after it. *)
Lemma split_go_indexOf sep s :
  sep <> "" ->
  split_go sep 0 s =
    match indexOf s sep with
    | Some n =>
        (take_str n s,
         let '(p, ps) :=
           split_go sep 0 (drop_str (n + String.length sep) s) in p :: ps)
    | None => (s, [])
    end.
Proof.
  intros Hne. induction s as [|a s IH].
  - by destruct sep.
  - rewrite indexOf_unfold. destruct (String.prefix sep (String a s)) eqn:Hp.
    + by rewrite split_go_hit.
    + rewrite split_go_unfold, Hp, IH.
      by destruct (indexOf s sep).
Qed.

Lemma split_indexOf sep s :
  sep <> "" ->
  split s sep =
    match indexOf s sep with
    | Some n => take_str n s :: split (drop_str (n + String.length sep) s) sep
    | None => [s]
    end.
Proof.
  intros Hne. unfold split. destruct sep as [|c sep]; [done|].
  rewrite split_go_indexOf by done.
  destruct (indexOf s _) as [n|]; [|done].
  by destruct (split_go _ 0 _).
Qed.

Lemma split_not_nil sep s : sep <> "" -> split s sep <> [].
Proof. intros Hne. rewrite split_indexOf by done. by destruct (indexOf s sep). Qed.

Lemma join_cons sep p ps :
  ps <> [] -> join sep (p :: ps) = p +:+ sep +:+ join sep ps.
Proof. by destruct ps. Qed.

(** Joining the pieces with the separator gives the string back, and no
    piece holds the separator. *)
Lemma split_spec sep s :
  sep <> "" ->
  join sep (split s sep) = s
  /\ Forall (fun p => includes p sep = false) (split s sep).
Proof.
  intros Hne.
  remember (String.length s) as n eqn:Hn. revert s Hn.
  induction (lt_wf n) as [n _ IH]. intros s ->.
  rewrite split_indexOf by done.
  destruct (indexOf s sep) as [k|] eqn:Hk.
  - pose proof (indexOf_Some _ _ _ Hk) as Hs.
    pose proof (f_equal String.length Hs) as Hlen.
    rewrite !length_append in Hlen.
    assert (0 < String.length sep) by (destruct sep; [done|simpl; lia]).
    destruct (IH (String.length (drop_str (k + String.length sep) s))
                ltac:(lia) _ eq_refl) as [IH1 IH2].
    split.
    + rewrite join_cons by by apply split_not_nil. rewrite IH1. by rewrite <- Hs.
    + constructor; [|done]. unfold includes. by rewrite indexOf_take.
  - split; [done|]. constructor; [|done]. unfold includes. by rewrite Hk.
Qed.

Lemma trimStart_spec s :
  exists l, s = l +:+ trimStart s /\ all_white l = true
            /\ starts_white (trimStart s) = false.
Proof.
  induction s as [|c s (l & Hs & Hl & Ht)]; [by exists ""|].
  simpl. destruct (is_white_space c) eqn:Hc.
  - exists (String c l). rewrite append_cons, <- Hs. simpl. by rewrite Hc.
  - exists "". simpl. by rewrite Hc.
Qed.

Lemma trimEnd_all_white s : all_white s = true -> trimEnd s = "".
Proof.
  induction s as [|a s IH]; [done|]. simpl. intros [Ha Hs]%andb_prop.
  by rewrite IH, Ha.
Qed.

Lemma trimEnd_spec s :
  exists r, s = trimEnd s +:+ r /\ all_white r = true
            /\ ends_white (trimEnd s) = false
            /\ starts_white (trimEnd s) = starts_white s && negb (all_white s).
Proof.
  induction s as [|c s (r & Hs & Hr & Ht & Hh)]; [by exists ""|].
  simpl. destruct (trimEnd s) as [|d t] eqn:Hd.
  - change ("" +:+ r) with r in Hs. subst r. rewrite Hr.
    destruct (is_white_space c) eqn:Hc.
    + exists (String c s). simpl. by rewrite Hc, Hr.
    + exists s. simpl. by rewrite Hc.
  - exists r. rewrite append_cons, <- Hs. split; [done|]. split; [done|].
    split; [done|].
    destruct (is_white_space c) eqn:Hc; [|done]. simpl.
    destruct (all_white s) eqn:Hw; [|done].
    by rewrite trimEnd_all_white in Hd.
Qed.

(** [trim] removes white space at both ends, and nothing else. *)
Lemma trim_spec s :
  exists l r, s = l +:+ trim s +:+ r
              /\ all_white l = true /\ all_white r = true
              /\ starts_white (trim s) = false /\ ends_white (trim s) = false.
Proof.
  destruct (trimStart_spec s) as (l & Hs & Hl & Ht).
  destruct (trimEnd_spec (trimStart s)) as (r & Hs' & Hr & He & Hh).
  exists l, r. unfold trim. rewrite <- Hs'. split; [done|].
  repeat split; try done. rewrite Hh, Ht. done.
Qed.

(** [parseFloat] on a few literals, against the float literals of Rocq
    (which are rounded to the nearest binary64 value). *)
Example parseFloat_literals :
  parseFloat "0.42" = 0.42%float
  /\ parseFloat "  1e3px" = 1000%float
  /\ parseFloat ".5" = 0.5%float
  /\ parseFloat "-0" = (-0)%float
  /\ parseFloat "1." = 1%float
  /\ parseFloat "9007199254740993" = 9007199254740992%float
  /\ parseFloat "4.9e-324" = 5e-324%float
  /\ parseFloat "1e400" = infinity
  /\ parseFloat "-Infinity" = neg_infinity
  /\ isNaN (parseFloat "") = true
  /\ isNaN (parseFloat "deg") = true
  /\ isNaN (parseFloat ".") = true.
Proof. vm_compute. repeat split; reflexivity. Qed.

Example split_pieces :
  split "opacity, transform" "," = ["opacity"; " transform"]
  /\ split "" "," = [""]
  /\ split "a,,b," "," = ["a"; ""; "b"; ""]
  /\ split "cubic-bezier" "cubic-bezier(" = ["cubic-bezier"]
  /\ trim "  ease-in " = "ease-in".
Proof. vm_compute. repeat split; reflexivity. Qed.

End StringFacts.

Import Spec StringFacts.

(* ===================================================================== *)
(** ** The resolution of the transition properties *)
(* ===================================================================== *)

Section Resolution.

Lemma transitionStyleHasChanged_undefined prev :
  transitionStyleHasChanged None prev = false.
Proof. reflexivity. Qed.

Lemma getTransitionProperties_not_string v :
  typeof v <> "string" -> getTransitionProperties v = None.
Proof. by destruct v. Qed.

Lemma useStyleTransition_no_transition dev st style :
  transitionStyle_of style = None ->
  useStyleTransition dev st style =
    {| returned := Plain <$> style; state_after := st; warnings := [];
       metadata := metadata_of style |}.
Proof. intros H. unfold useStyleTransition. by rewrite H. Qed.

(** C6.  The resolution of [transitionProperty]: the string ["all"] gives
    exactly [opacity] and [transform]; any other string gives its pieces
    between commas (joined by commas they give the string back, and none
    holds a comma), each trimmed of white space at both ends; a value that
    is not a string (an absent one too) gives no list, so that no property
    is transitioning: [transitionStyle] is undefined and the hook hands the
    style back, raising nothing. *)
Theorem getTransitionProperties_resolution :
  getTransitionProperties (VStr "all") = Some ["opacity"; "transform"]
  /\ (forall s, s <> "all" ->
        getTransitionProperties (VStr s) = Some (map trim (split s ","))
        /\ join "," (split s ",") = s
        /\ Forall (fun p => includes p "," = false) (split s ",")
        /\ Forall (fun p => starts_white p = false /\ ends_white p = false)
             (map trim (split s ",")))
  /\ (forall v, typeof v <> "string" ->
        getTransitionProperties v = None
        /\ forall dev st style,
             read style "transitionProperty" = v ->
             transitionStyle_of style = None
             /\ useStyleTransition dev st style =
                  {| returned := Plain <$> style; state_after := st;
                     warnings := []; metadata := metadata_of style |}).
Proof.
  split; [done|]. split.
  - intros s Hs. split.
    + unfold getTransitionProperties. simpl.
      destruct (String.eqb_spec s "all"); [done|]. done.
    + destruct (split_spec "," s ltac:(done)) as [Hj Hf]. split; [done|].
      split; [done|]. apply Forall_map, Forall_forall. intros p _.
      destruct (trim_spec p) as (l & r & _ & _ & _ & H1 & H2). done.
  - intros v Hv. pose proof (getTransitionProperties_not_string v Hv) as Hn.
    split; [done|]. intros dev st style Hr.
    assert (transitionStyle_of style = None) as Ht.
    { unfold transitionStyle_of. by rewrite Hr, Hn. }
    split; [done|]. by apply useStyleTransition_no_transition.
Qed.

Lemma getTransitionProperties_resolution_witness :
  "opacity , transform" <> "all"
  /\ getTransitionProperties (VStr "opacity , transform")
     = Some ["opacity"; "transform"]
  /\ typeof VUndefined <> "string"
  /\ getTransitionProperties VUndefined = None.
Proof.
  pose proof getTransitionProperties_resolution as (_ & Hs & Hv).
  assert ("opacity , transform" <> "all") as H1
    by (apply (bool_decide_unpack _); vm_compute; exact I).
  assert (typeof VUndefined <> "string") as H2
    by (apply (bool_decide_unpack _); vm_compute; exact I).
  split; [exact H1|]. split.
  - rewrite (proj1 (Hs _ H1)). vm_compute. reflexivity.
  - split; [exact H2|]. exact (proj1 (Hv _ H2)).
Defined.

End Resolution.

(* ===================================================================== *)
(** ** The easing function *)
(* ===================================================================== *)

Section Easing.

Lemma prefix_append_l p q s :
  String.prefix (p +:+ q) s = true -> String.prefix p s = true.
Proof.
  revert s; induction p as [|c p IH]; intros s H; [by destruct s|].
  rewrite append_cons in H. destruct s as [|a s]; [done|]. simpl in *.
  destruct (ascii_dec c a); [|done]. by apply IH.
Qed.

(** A string that holds [p +:+ q] holds [p]. *)
Lemma indexOf_needle_prefix s p q :
  is_Some (indexOf s (p +:+ q)) -> is_Some (indexOf s p).
Proof.
  induction s as [|a s IH].
  - rewrite (indexOf_unfold "" (p +:+ q)), (indexOf_unfold "" p).
    destruct (String.prefix (p +:+ q) "") eqn:H; [|by intros [? ?]].
    apply prefix_append_l in H. rewrite H. eauto.
  - rewrite (indexOf_unfold (String a s) (p +:+ q)),
      (indexOf_unfold (String a s) p).
    destruct (String.prefix (p +:+ q) (String a s)) eqn:H.
    + apply prefix_append_l in H. rewrite H. eauto.
    + rewrite fmap_is_Some. intros Hs%IH.
      destruct (String.prefix p (String a s)); [eauto|]. by apply fmap_is_Some.
Qed.

Lemma includes_true s sub : includes s sub = true <-> is_Some (indexOf s sub).
Proof.
  unfold includes. destruct (indexOf s sub); split; eauto; try done.
Qed.

Lemma split_head sep s : sep <> "" -> split s sep !! 0 = Some (before sep s).
Proof.
  intros Hne. rewrite split_indexOf by done. unfold before.
  by destruct (indexOf s sep).
Qed.

Lemma split_second sep s :
  sep <> "" ->
  split s sep !! 1 =
    (fun n => before sep (drop_str (n + String.length sep) s)) <$> indexOf s sep.
Proof.
  intros Hne. rewrite split_indexOf by done.
  destruct (indexOf s sep) as [n|]; [|done]. simpl. by rewrite split_head.
Qed.

Lemma getEasingFunction_other s :
  keyword s = false ->
  getEasingFunction (Some s) =
    if includes s "cubic-bezier" then
      match indexOf s "cubic-bezier(" with
      | Some n => Easing_bezier (control_points (drop_str (n + 13) s))
      | None =>
          Throw (TypeError "Cannot read properties of undefined (reading 'split')")
      end
    else Return Easing_linear.
Proof.
  intros Hk. unfold keyword in Hk.
  apply orb_false_elim in Hk as [[[H1 H2]%orb_false_elim H3]%orb_false_elim H4].
  unfold getEasingFunction, input_is. rewrite H1, H2, H3, H4.
  destruct (includes s "cubic-bezier"); [|done].
  rewrite split_second by done.
  destruct (indexOf s "cubic-bezier(") as [n|]; [|done].
  cbn [fmap option_fmap option_map split_of].
  rewrite split_head by done. done.
Qed.

Lemma keyword_indexOf s : keyword s = true -> indexOf s "cubic-bezier" = None.
Proof.
  unfold keyword. rewrite !orb_true_iff, !String.eqb_eq.
  intros [[[->| ->]| ->]| ->]; reflexivity.
Qed.

(** An input that holds [cubic-bezier(]: the call of [Easing.bezier]. *)
Lemma getEasingFunction_bezier s n :
  indexOf s "cubic-bezier(" = Some n ->
  getEasingFunction (Some s) =
    Easing_bezier (control_points (drop_str (n + 13) s)).
Proof.
  intros Hn.
  assert (is_Some (indexOf s "cubic-bezier")) as Hi.
  { apply (indexOf_needle_prefix s "cubic-bezier" "(").
    change (is_Some (indexOf s "cubic-bezier(")). rewrite Hn. eauto. }
  assert (keyword s = false) as Hk.
  { destruct (keyword s) eqn:Hk; [|done]. apply keyword_indexOf in Hk.
    rewrite Hk in Hi. by destruct Hi. }
  apply includes_true in Hi. rewrite getEasingFunction_other by done.
  by rewrite Hi, Hn.
Qed.

(** The slip: an input that holds [cubic-bezier] with no [cubic-bezier(]. *)
Lemma getEasingFunction_throws s :
  includes s "cubic-bezier" = true -> indexOf s "cubic-bezier(" = None ->
  getEasingFunction (Some s) =
    Throw (TypeError "Cannot read properties of undefined (reading 'split')").
Proof.
  intros Hi Hn.
  assert (keyword s = false) as Hk.
  { destruct (keyword s) eqn:Hk; [|done]. apply keyword_indexOf in Hk.
    unfold includes in Hi. by rewrite Hk in Hi. }
  rewrite getEasingFunction_other by done. by rewrite Hi, Hn.
Qed.

Lemma before_char_app c args post :
  includes args (String c "") = false ->
  before (String c "") (args +:+ String c post) = args.
Proof.
  unfold includes, before. destruct (indexOf args _) eqn:H; [done|]. intros _.
  rewrite indexOf_char_app by done. apply take_str_app.
Qed.

(** C3, as amended.  [getEasingFunction] returns the named curve for each of
    the four keywords; the linear curve for null or undefined and for every
    other string that does not hold [cubic-bezier]; and, for every string
    that holds [cubic-bezier(], it hands to [Easing.bezier] the numbers
    [parseFloat] of the trimmed comma-separated pieces of the text that
    follows the first [cubic-bezier(], up to the next [cubic-bezier(] or
    [)], whichever comes first, or to the end of the string, however many
    pieces there are; it returns the bezier curve of these numbers whenever
    the first and the third of them are in the range [0, 1].  So
    [cubic-bezier(0.42, 0, 1, 1)] gives the curve of [0.42, 0, 1, 1].
    Nothing is said of a string that holds [cubic-bezier] and no
    [cubic-bezier(], nor of numbers outside the range. *)
Theorem getEasingFunction_curves :
  getEasingFunction (Some "ease") = Return Easing_ease
  /\ getEasingFunction (Some "ease-in") = Return (Easing_in Easing_ease)
  /\ getEasingFunction (Some "ease-out") = Return (Easing_out Easing_ease)
  /\ getEasingFunction (Some "ease-in-out") = Return (Easing_inOut Easing_ease)
  /\ getEasingFunction None = Return Easing_linear
  /\ (forall s, keyword s = false -> includes s "cubic-bezier" = false ->
        getEasingFunction (Some s) = Return Easing_linear)
  /\ (forall s n curve,
        indexOf s "cubic-bezier(" = Some n ->
        curve
        = map (fun point => parseFloat (trim point))
            (split
               (before ")" (before "cubic-bezier(" (drop_str (n + 13) s)))
               ",") ->
        in_unit_range (curve !! 0) = true ->
        in_unit_range (curve !! 2) = true ->
        getEasingFunction (Some s) = Return (BezierEasing curve))
  /\ getEasingFunction (Some "cubic-bezier(0.42, 0, 1, 1)") =
       Return (BezierEasing [0.42; 0; 1; 1]%float).
Proof.
  repeat split; try reflexivity.
  - intros s Hk Hi. rewrite getEasingFunction_other by done. by rewrite Hi.
  - intros s n curve Hn -> H0 H2. rewrite (getEasingFunction_bezier _ _ Hn).
    unfold Easing_bezier, control_points. by rewrite H0, H2.
Qed.

Lemma getEasingFunction_curves_witness :
  keyword "linear" = false
  /\ getEasingFunction (Some "linear") = Return Easing_linear
  /\ getEasingFunction (Some "x cubic-bezier(.1,.2,.3,.4) y")
     = Return (BezierEasing [0.1; 0.2; 0.3; 0.4]%float).
Proof.
  pose proof getEasingFunction_curves as (_ & _ & _ & _ & _ & Hl & Hb & _).
  assert (keyword "linear" = false) as Hk by reflexivity.
  split; [exact Hk|]. split.
  - apply (Hl "linear" Hk). vm_compute. reflexivity.
  - apply (Hb _ 2); vm_compute; reflexivity.
Defined.

(** C3, counterexample.  Two inputs that are none of the five forms and do
    not yield the linear curve: the test is [includes], and the pieces are
    not counted. *)
Lemma getEasingFunction_unrecognized_bezier :
  recognized (Some "steps(4) cubic-bezier(0,0,1,1)") = false
  /\ getEasingFunction (Some "steps(4) cubic-bezier(0,0,1,1)")
     = Return (BezierEasing [0; 0; 1; 1]%float)
  /\ recognized (Some "cubic-bezier(0,0,1,1,9)") = false
  /\ getEasingFunction (Some "cubic-bezier(0,0,1,1,9)")
     = Return (BezierEasing [0; 0; 1; 1; 9]%float).
Proof. vm_compute. repeat split; reflexivity. Qed.

(** The text that is read stops at the next [cubic-bezier(] as well as at
    [)]. *)
Example getEasingFunction_nested :
  getEasingFunction (Some "cubic-bezier(1,2 cubic-bezier(3,4)")
  = Throw (Error "bezier x values must be in [0, 1] range")
  /\ getEasingFunction (Some "cubic-bezier(0,2,1 cubic-bezier(3,4)")
     = Return (BezierEasing [0; 2; 1]%float).
Proof. vm_compute. split; reflexivity. Qed.

(** [Easing.bezier] refuses a first or third number outside [0, 1], one
    that is NaN, and one that is missing. *)
Example getEasingFunction_refused :
  getEasingFunction (Some "cubic-bezier(1.5, 0, 0.5, 1)")
  = Throw (Error "bezier x values must be in [0, 1] range")
  /\ getEasingFunction (Some "cubic-bezier(0.5)")
     = Throw (Error "bezier x values must be in [0, 1] range")
  /\ getEasingFunction (Some "cubic-bezier(a, 0, 1, 1)")
     = Throw (Error "bezier x values must be in [0, 1] range")
  /\ getEasingFunction (Some "cubic-bezier()")
     = Throw (Error "bezier x values must be in [0, 1] range").
Proof. vm_compute. repeat split; reflexivity. Qed.

(** On [cubic-bezier] with no parenthesis the index [1] of the split is
    undefined and [chunk.split] raises. *)
Lemma getEasingFunction_raises :
  getEasingFunction (Some "cubic-bezier") =
    Throw (TypeError "Cannot read properties of undefined (reading 'split')").
Proof. reflexivity. Qed.

(** When [getEasingFunction] raises: on a string that holds [cubic-bezier]
    and either no [cubic-bezier(], or numbers that [Easing.bezier]
    refuses. *)
Lemma getEasingFunction_raises_iff input :
  (exists e, getEasingFunction input = Throw e)
  <-> exists s,
        input = Some s
        /\ includes s "cubic-bezier" = true
        /\ match indexOf s "cubic-bezier(" with
           | None => True
           | Some n =>
               let curve := control_points (drop_str (n + 13) s) in
               in_unit_range (curve !! 0) && in_unit_range (curve !! 2)
               = false
           end.
Proof.
  destruct input as [s|]; [|split; [intros [e [=]]|intros (s & [=] & _)]].
  destruct (keyword s) eqn:Hk.
  - split.
    + intros [e He]. unfold keyword in Hk.
      rewrite !orb_true_iff, !String.eqb_eq in Hk.
      destruct Hk as [[[->| ->]| ->]| ->]; discriminate He.
    + intros (s' & [= <-] & Hi & _). apply keyword_indexOf in Hk.
      unfold includes in Hi. by rewrite Hk in Hi.
  - rewrite getEasingFunction_other by done.
    destruct (includes s "cubic-bezier") eqn:Hi;
      [destruct (indexOf s "cubic-bezier(") as [n|] eqn:Hn|].
    + unfold Easing_bezier. cbv zeta.
      destruct (in_unit_range _ && in_unit_range _) eqn:Hr.
      * split; [intros [e [=]]|].
        intros (s' & [= <-] & _ & Hn'). rewrite Hn in Hn'. congruence.
      * split; [intros _|eauto]. exists s. rewrite Hn. done.
    + split; [intros _|eauto]. exists s. by rewrite Hn.
    + split; [intros [e [=]]|intros (s' & [= <-] & Hi' & _); congruence].
Qed.

End Easing.

(* ===================================================================== *)
(** ** Eligibility for the native driver *)
(* ===================================================================== *)

Section NativeDriver.

Lemma canUseNativeDriver_loop_true (properties : list (string * value)) :
  canUseNativeDriver_loop properties = true
  <-> Forall (fun entry => accepted entry.1 entry.2) properties.
Proof.
  induction properties as [|[p v] l IH]; simpl; [by split|].
  rewrite Forall_cons, <- IH. unfold accepted. simpl.
  destruct (String.eqb_spec p "opacity") as [->|Ho]; [tauto|].
  destruct (String.eqb_spec p "transform") as [->|Ht]; simpl.
  - destruct v as [| | | | |r items|]; simpl;
      try (split; [done|intros [[[=]|(_ & ? & ? & [=] & _)] _]]).
    destruct (array_includes items "skew") eqn:Hs; simpl.
    + split; [done|]. intros [[[=]|(_ & ? & ? & [= <- <-] & ?)] _]. congruence.
    + split; [|tauto]. intros H. split; [|done]. right. eauto.
  - split; [done|]. intros [[?|[? _]] _]; done.
Qed.

(** What [canUseNativeDriver] computes: every property is [opacity], or is
    [transform] with an array that does not hold the string ['skew']. *)
Lemma canUseNativeDriver_true (transitionProperties : Style) :
  canUseNativeDriver (Some transitionProperties) = true
  <-> map_Forall accepted transitionProperties.
Proof.
  unfold canUseNativeDriver. rewrite canUseNativeDriver_loop_true.
  rewrite map_Forall_to_list. apply Forall_iff. by intros [p v].
Qed.

(** An array of transform objects never holds the string. *)
Lemma array_includes_objects (items : list element) x :
  Forall (fun e => exists t, e = EObj t) items -> array_includes items x = false.
Proof.
  induction 1 as [|e items [t ->] _ IH]; [done|]. simpl. exact IH.
Qed.

(** Over transform objects the test on ['skew'] decides nothing: whatever
    the stacks hold, the result is true as soon as every property is
    [opacity], or [transform] with an array. *)
Lemma canUseNativeDriver_objects (transitionProperties : Style) :
  map_Forall
    (fun property value =>
       property = "opacity"
       \/ (property = "transform"
           /\ exists r items,
                value = VArr r items
                /\ Forall (fun e => exists t, e = EObj t) items))
    transitionProperties ->
  canUseNativeDriver (Some transitionProperties) = true.
Proof.
  intros H. apply canUseNativeDriver_true. intros p v Hp.
  destruct (H p v Hp) as [->|(-> & r & items & -> & Ho)]; [by left|].
  right. split; [done|]. exists r, items. split; [done|].
  by apply array_includes_objects.
Qed.

(** C1.  Eligibility is to hold exactly when every property is [opacity],
    or [transform] with a stack that holds no [skewX] or [skewY]
    operation, and to fail for an undefined subset.  The source departs
    from it: a [transform] whose stack holds a [skewX] operation is not
    eligible by the specification, and [canUseNativeDriver] returns true
    for it.  The test [value.includes('skew')] looks for the string
    ['skew'] among the elements of the array, which are transform objects.
    For an undefined subset the result is false. *)
Theorem canUseNativeDriver_skew :
  let transitionProperties : Style :=
    {[ "transform" := VArr 1 [EObj (single SkewX (PStr "10deg"))] ]} in
  canUseNativeDriver (Some transitionProperties) = true
  /\ ~ eligible transitionProperties
  /\ canUseNativeDriver None = false.
Proof.
  split; [vm_compute; reflexivity|]. split; [|done].
  intros H. specialize (H "transform" _ (lookup_singleton_eq _ _)).
  destruct H as [[=]|(_ & r & items & [= <- <-] & Hs)]. done.
Qed.

End NativeDriver.

(* ===================================================================== *)
(** ** The compatibility checker and the style differ *)
(* ===================================================================== *)

Section Checker.

Implicit Types (a b : list element) (ea eb e : element) (k : kind).

Lemma all_kinds k : In k kinds.
Proof. destruct k; simpl; tauto. Qed.

Lemma existsb_kinds (f : kind -> bool) :
  existsb f kinds = true <-> exists k, f k = true.
Proof.
  rewrite existsb_exists. split; [intros (k & _ & H); eauto|].
  intros [k H]. eauto using all_kinds.
Qed.

Lemma types_differ_kinds ea eb :
  types_differ ea eb
  = existsb (fun k => present k ea && negb (present k eb)) kinds.
Proof.
  unfold types_differ, present, is_null. simpl.
  rewrite orb_false_r, <- !orb_assoc. reflexivity.
Qed.

Lemma values_differ_kinds ea eb :
  values_differ ea eb
  = existsb (fun k => differs (get (field k) ea) (get (field k) eb)) kinds.
Proof.
  unfold values_differ. simpl. rewrite orb_false_r, <- !orb_assoc. reflexivity.
Qed.

(** The entries differ in type when a kind of the first is missing from the
    second. *)
Lemma types_differ_false ea eb :
  types_differ ea eb = false
  <-> forall k, present k ea = true -> present k eb = true.
Proof.
  rewrite types_differ_kinds, <- not_true_iff_false, existsb_kinds. split.
  - intros H k Hk. destruct (present k eb) eqn:Hb; [done|].
    destruct H. exists k. by rewrite Hk, Hb.
  - intros H [k [Hk Hb%negb_true_iff]%andb_prop]. rewrite H in Hb; done.
Qed.

Lemma differs_false (x y : option prim) :
  differs x y = false
  <-> forall p, x = Some p -> exists q, y = Some q /\ prim_strict_eq p q = true.
Proof.
  destruct x as [p|], y as [q|]; simpl; split; try done.
  - intros H%negb_false_iff p' [= <-]. eauto.
  - intros H. destruct (H p eq_refl) as (q' & [= <-] & ->). done.
  - intros H. destruct (H p eq_refl) as (q' & [=] & _).
Qed.

Lemma values_differ_false ea eb :
  values_differ ea eb = false
  <-> forall k p, get (field k) ea = Some p ->
        exists q, get (field k) eb = Some q /\ prim_strict_eq p q = true.
Proof.
  rewrite values_differ_kinds, <- not_true_iff_false, existsb_kinds. split.
  - intros H k. apply differs_false.
    destruct (differs _ _) eqn:Hd; [|done]. destruct H; eauto.
  - intros H [k Hk]. specialize (H k). apply differs_false in H. congruence.
Qed.

(** A loop over two arrays with an early exit, as a property of every index. *)
Lemma types_loop_true a b :
  types_loop a b = true
  <-> forall i ea eb, a !! i = Some ea -> b !! i = Some eb ->
        types_differ ea eb = false.
Proof.
  revert b; induction a as [|x a IH]; intros [|y b]; simpl; try done.
  destruct (types_differ x y) eqn:Hxy.
  - split; [done|]. intros H. by rewrite (H 0 x y) in Hxy.
  - rewrite IH. split.
    + intros H [|i] ea eb; simpl; [by intros [= <-] [= <-]|]. apply H.
    + intros H i. apply (H (S i)).
Qed.

Lemma values_loop_true a b :
  values_loop a b = true
  <-> forall i ea eb, a !! i = Some ea -> b !! i = Some eb ->
        values_differ ea eb = false.
Proof.
  revert b; induction a as [|x a IH]; intros [|y b]; simpl; try done.
  destruct (values_differ x y) eqn:Hxy.
  - split; [done|]. intros H. by rewrite (H 0 x y) in Hxy.
  - rewrite IH. split.
    + intros H [|i] ea eb; simpl; [by intros [= <-] [= <-]|]. apply H.
    + intros H i. apply (H (S i)).
Qed.

(** What [transformsHaveSameLengthTypesAndOrder] decides. *)
Lemma sameShape_true a b :
  transformsHaveSameLengthTypesAndOrder a b = true
  <-> length a = length b
      /\ forall i ea eb, a !! i = Some ea -> b !! i = Some eb ->
           forall k, present k ea = true -> present k eb = true.
Proof.
  unfold transformsHaveSameLengthTypesAndOrder.
  destruct (Nat.eqb_spec (length a) (length b)) as [Hl|Hl]; simpl.
  - rewrite types_loop_true. split.
    + intros H. split; [done|]. intros i ea eb Ha Hb.
      apply types_differ_false. eauto.
    + intros [_ H] i ea eb Ha Hb. apply types_differ_false. eauto.
  - split; [done|]. by intros [? _].
Qed.

Lemma sameShape_refl a : transformsHaveSameLengthTypesAndOrder a a = true.
Proof.
  apply sameShape_true. split; [done|]. intros i ea eb Ha Hb. congruence.
Qed.

Lemma sameShape_length a b :
  length a <> length b -> transformsHaveSameLengthTypesAndOrder a b = false.
Proof.
  intros H. apply not_true_iff_false. rewrite sameShape_true. tauto.
Qed.

(** What [transformListsAreEqual] decides. *)
Lemma transformListsAreEqual_true a b :
  transformListsAreEqual a b = true
  <-> length a = length b
      /\ forall i ea eb, a !! i = Some ea -> b !! i = Some eb ->
           forall k p, get (field k) ea = Some p ->
             exists q, get (field k) eb = Some q /\ prim_strict_eq p q = true.
Proof.
  unfold transformListsAreEqual.
  destruct (transformsHaveSameLengthTypesAndOrder a b) eqn:Hs; simpl.
  - apply sameShape_true in Hs as [Hl _]. rewrite values_loop_true. split.
    + intros H. split; [done|]. intros i ea eb Ha Hb.
      apply values_differ_false. eauto.
    + intros [_ H] i ea eb Ha Hb. apply values_differ_false. eauto.
  - split; [done|]. intros [Hl H].
    apply not_true_iff_false in Hs. destruct Hs. apply sameShape_true.
    split; [done|]. intros i ea eb Ha Hb k Hk. unfold present in *.
    destruct (get (field k) ea) as [p|] eqn:Hp; [|done].
    destruct (H i ea eb Ha Hb k p Hp) as (q & -> & _). done.
Qed.

(** C2, as amended.  [transformListsAreEqual] returns true exactly when the
    lists have one length and, at every index, every kind other than the
    matrix that [a[i]] carries is carried by [b[i]] with an identical
    ([===]) magnitude.  So it returns false whenever, at some index, such a
    kind is carried by [a[i]] and not by [b[i]], or by both with magnitudes
    that are not identical; and it returns true only when
    [transformsHaveSameLengthTypesAndOrder] does.  A kind that only [b[i]]
    carries, and the matrix, are not looked at. *)
Theorem transformListsAreEqual_decides a b :
  (transformListsAreEqual a b = true
   <-> length a = length b
       /\ forall i ea eb, a !! i = Some ea -> b !! i = Some eb ->
            forall k p, get (field k) ea = Some p ->
              exists q, get (field k) eb = Some q
                        /\ prim_strict_eq p q = true)
  /\ (forall i ea eb k,
        a !! i = Some ea -> b !! i = Some eb ->
        present k ea = true -> present k eb = false ->
        transformListsAreEqual a b = false)
  /\ (forall i ea eb k p q,
        a !! i = Some ea -> b !! i = Some eb ->
        get (field k) ea = Some p -> get (field k) eb = Some q ->
        prim_strict_eq p q = false ->
        transformListsAreEqual a b = false)
  /\ (transformListsAreEqual a b = true ->
      transformsHaveSameLengthTypesAndOrder a b = true).
Proof.
  split; [apply transformListsAreEqual_true|]. split; [|split].
  - intros i ea eb k Ha Hb Hk Hk'. apply not_true_iff_false.
    intros [_ H]%transformListsAreEqual_true. unfold present in *.
    destruct (get (field k) ea) as [p|] eqn:Hp; [|done].
    destruct (H i ea eb Ha Hb k p Hp) as (q & Hq & _). by rewrite Hq in Hk'.
  - intros i ea eb k p q Ha Hb Hp Hq Hne. apply not_true_iff_false.
    intros [_ H]%transformListsAreEqual_true.
    destruct (H i ea eb Ha Hb k p Hp) as (q' & Hq' & He). congruence.
  - unfold transformListsAreEqual.
    by destruct (transformsHaveSameLengthTypesAndOrder a b).
Qed.

Lemma transformListsAreEqual_decides_witness :
  let a := [EObj (single Rotate (PStr "10deg"))] in
  let b := [EObj (single Rotate (PStr "20deg"))] in
  let c := [EObj (single Scale (PNum 2%float))] in
  transformListsAreEqual a b = false
  /\ transformListsAreEqual a c = false
  /\ transformListsAreEqual a a = true.
Proof.
  intros a b c.
  pose proof (transformListsAreEqual_decides a b) as (_ & _ & Hv & _).
  pose proof (transformListsAreEqual_decides a c) as (_ & Hk & _ & _).
  pose proof (transformListsAreEqual_decides a a) as (Ht & _).
  split; [|split].
  - eapply (Hv 0 _ _ Rotate (PStr "10deg") (PStr "20deg")); reflexivity.
  - eapply (Hk 0 _ _ Rotate); reflexivity.
  - apply Ht. split; [reflexivity|].
    intros [|i] ea eb; [|done]. intros [= <-] [= <-] k p Hp.
    destruct k; vm_compute in Hp; try discriminate Hp.
    injection Hp as <-. by exists (PStr "10deg").
Defined.

(** C2, counterexample.  A rotation is carried by [b[0]] and not by [a[0]],
    and the lists are reported equal; the same with an entry [a[0]] that
    carries nothing. *)
Lemma transformListsAreEqual_one_sided :
  let a := [EObj (with_matrix [1; 0; 0; 1; 0; 0]%float)] in
  let b := [EObj (single Rotate (PStr "10deg"))] in
  present Rotate (EObj (with_matrix [1; 0; 0; 1; 0; 0]%float)) = false
  /\ present Rotate (EObj (single Rotate (PStr "10deg"))) = true
  /\ transformListsAreEqual a b = true
  /\ transformListsAreEqual [EObj no_transform] b = true.
Proof. vm_compute. repeat split; reflexivity. Qed.

Lemma prim_strict_eq_refl p :
  prim_is_NaN (Some p) = false -> prim_strict_eq p p = true.
Proof.
  destruct p as [n|s]; simpl; [|intros _; apply String.eqb_refl].
  unfold isNaN, number_strict_eq, PrimFloat.is_nan.
  by intros ->%negb_false_iff.
Qed.

Lemma element_has_NaN_false e :
  element_has_NaN e = false <-> forall k, prim_is_NaN (get (field k) e) = false.
Proof.
  unfold element_has_NaN. rewrite <- not_true_iff_false, existsb_kinds. split.
  - intros H k. destruct (prim_is_NaN _) eqn:Hk; [|done]. destruct H; eauto.
  - intros H [k Hk]. congruence.
Qed.

Lemma transformListsAreEqual_refl a :
  existsb element_has_NaN a = false -> transformListsAreEqual a a = true.
Proof.
  intros Hn. apply transformListsAreEqual_true. split; [done|].
  intros i ea eb Ha Hb k p Hp. assert (eb = ea) as -> by congruence.
  exists p. split; [done|]. apply prim_strict_eq_refl.
  assert (element_has_NaN ea = false) as He.
  { destruct (element_has_NaN ea) eqn:He; [|done].
    apply not_true_iff_false in Hn. destruct Hn. apply existsb_exists.
    exists ea. split; [|done]. apply list_elem_of_In, list_elem_of_lookup. eauto. }
  rewrite <- Hp. by apply element_has_NaN_false.
Qed.

(** C9, as amended.  For every transform stack [a],
    [transformsHaveSameLengthTypesAndOrder(a, a)] is true, and
    [transformListsAreEqual(a, a)] is true when no magnitude of [a] (of a
    kind other than the matrix) is NaN; for stacks of different lengths
    [transformsHaveSameLengthTypesAndOrder] is false. *)
Theorem compatibility_reflexive a :
  transformsHaveSameLengthTypesAndOrder a a = true
  /\ (existsb element_has_NaN a = false -> transformListsAreEqual a a = true)
  /\ (forall b, length a <> length b ->
        transformsHaveSameLengthTypesAndOrder a b = false).
Proof.
  split; [apply sameShape_refl|]. split; [apply transformListsAreEqual_refl|].
  intros b. apply sameShape_length.
Qed.

Lemma compatibility_reflexive_witness :
  let a := [EObj (single Rotate (PStr "90deg"));
            EObj (single Scale (PNum 2%float))] in
  let b := [EObj (single Rotate (PStr "0deg"))] in
  existsb element_has_NaN a = false
  /\ transformListsAreEqual a a = true
  /\ length a <> length b
  /\ transformsHaveSameLengthTypesAndOrder a b = false.
Proof.
  intros a b.
  pose proof (compatibility_reflexive a) as (_ & Hv & Hl).
  assert (existsb element_has_NaN a = false) as H1 by reflexivity.
  assert (length a <> length b) as H2 by (simpl; lia).
  split; [exact H1|]. split; [exact (Hv H1)|]. split; [exact H2|].
  exact (Hl b H2).
Defined.

(** C9, counterexample.  [NaN !== NaN]: a stack whose scale is NaN is not
    equal to itself. *)
Lemma transformListsAreEqual_NaN :
  transformListsAreEqual [EObj (single Scale (PNum NaN))]
    [EObj (single Scale (PNum NaN))] = false.
Proof. vm_compute. reflexivity. Qed.

Lemma same_but_matrix_true a b :
  same_but_matrix a b = true
  <-> length a = length b
      /\ forall i ea eb, a !! i = Some ea -> b !! i = Some eb ->
           forall k, same_field (get (field k) ea) (get (field k) eb) = true.
Proof.
  unfold same_but_matrix. rewrite andb_true_iff, Nat.eqb_eq, forallb_forall.
  split; intros [Hl H]; (split; [done|]).
  - intros i ea eb Ha Hb k.
    assert (In (ea, eb) (zip a b)) as Hin.
    { apply list_elem_of_In, list_elem_of_lookup. exists i.
      apply lookup_zip_with_Some. eauto. }
    specialize (H _ Hin). cbv beta iota in H. rewrite forallb_forall in H.
    apply H, all_kinds.
  - intros [ea eb] Hin%list_elem_of_In.
    apply list_elem_of_lookup in Hin as [i Hi].
    apply lookup_zip_with_Some in Hi as (x & y & [= -> ->] & Ha & Hb).
    apply forallb_forall. intros k _. eauto.
Qed.

(** C10, as amended.  Neither comparison looks at the matrix: for two lists
    of one length whose entries are identical ([===]) in every kind but
    the matrix, [transformsHaveSameLengthTypesAndOrder] and
    [transformListsAreEqual] both return true, and the test of the Style
    Differ on transform values (lines 175-181) finds no difference.
    Nothing is said of what the Differ reports in the end. *)
Theorem comparisons_ignore_matrix a b :
  same_but_matrix a b = true ->
  transformsHaveSameLengthTypesAndOrder a b = true
  /\ transformListsAreEqual a b = true
  /\ forall r r', transforms_changed (VArr r a) (VArr r' b) = false.
Proof.
  intros [Hl H]%same_but_matrix_true.
  assert (transformListsAreEqual a b = true) as He.
  { apply transformListsAreEqual_true. split; [done|].
    intros i ea eb Ha Hb k p Hp. specialize (H i ea eb Ha Hb k).
    rewrite Hp in H. destruct (get (field k) eb) as [q|]; [eauto|done]. }
  split; [|split; [done|]].
  - unfold transformListsAreEqual in He.
    by destruct (transformsHaveSameLengthTypesAndOrder a b).
  - intros r r'. simpl. by rewrite He.
Qed.

Lemma comparisons_ignore_matrix_witness :
  let a := [EObj (with_matrix [1; 0; 0; 1; 0; 0]%float);
            EObj (single ScaleX (PNum 2%float))] in
  let b := [EObj (with_matrix [2; 0; 0; 2; 0; 0]%float);
            EObj (single ScaleX (PNum 2%float))] in
  same_but_matrix a b = true
  /\ transformsHaveSameLengthTypesAndOrder a b = true
  /\ transformListsAreEqual a b = true.
Proof.
  intros a b. assert (same_but_matrix a b = true) as H by reflexivity.
  pose proof (comparisons_ignore_matrix a b H) as (H1 & H2 & _).
  split; [exact H|]. split; [exact H1|exact H2].
Defined.

(** C10, counterexample.  Only the payload of the matrix differs, and the
    Differ reports a change: after the test on transform values it compares
    the two arrays with [!==], and they are two objects. *)
Lemma differ_reports_matrix_change :
  let a := [EObj (with_matrix [1; 0; 0; 1; 0; 0]%float)] in
  let b := [EObj (with_matrix [2; 0; 0; 2; 0; 0]%float)] in
  same_but_matrix a b = true
  /\ transitionStyleHasChanged
       (Some {[ "transform" := VArr 2 b ]}) (Some {[ "transform" := VArr 1 a ]})
     = true.
Proof. vm_compute. split; reflexivity. Qed.

End Checker.

Section Differ.

Lemma strict_eq_refl v : value_has_NaN v = false -> strict_eq v v = true.
Proof.
  destruct v as [| |b|n|s|r items|r]; simpl; try done.
  - intros _. by destruct b.
  - unfold isNaN, number_strict_eq, PrimFloat.is_nan.
    by intros ->%negb_false_iff.
  - intros _. apply String.eqb_refl.
  - intros _. apply Pos.eqb_refl.
  - intros _. apply Pos.eqb_refl.
Qed.

Lemma transforms_changed_refl v :
  value_has_NaN v = false -> transforms_changed v v = false.
Proof.
  destruct v; simpl; try done. intros H.
  by rewrite transformListsAreEqual_refl.
Qed.

Lemma hasChanged_loop_same (prev : Style) (next : list (string * value)) :
  Forall (fun entry => prev !! entry.1 = Some entry.2
                       /\ value_has_NaN entry.2 = false) next ->
  hasChanged_loop prev next = false.
Proof.
  induction 1 as [|[k v] next [Hk Hv] _ IH]; [done|]. simpl in *.
  unfold read. rewrite Hk. simpl.
  rewrite String.eqb_refl, transforms_changed_refl, strict_eq_refl by done.
  done.
Qed.

(** C8, as amended.  For every style snapshot [S] that holds no NaN (as a
    property value or as a magnitude of a transform entry),
    [transitionStyleHasChanged(S, S)] is false. *)
Theorem transitionStyleHasChanged_same (S : option Style) :
  snapshot_has_NaN S = false -> transitionStyleHasChanged S S = false.
Proof.
  destruct S as [properties|]; [|done]. simpl. intros Hn.
  apply hasChanged_loop_same, Forall_forall. intros [k v] Hin. simpl.
  split; [by apply elem_of_map_to_list|].
  destruct (value_has_NaN v) eqn:Hv; [|done].
  apply not_true_iff_false in Hn. destruct Hn. apply existsb_exists.
  exists (k, v). split; [by apply list_elem_of_In|done].
Qed.

Lemma transitionStyleHasChanged_same_witness :
  let S : option Style :=
    Some {[ "opacity" := VNum 1%float;
            "transform" := VArr 1 [EObj (single Rotate (PStr "90deg"))] ]} in
  snapshot_has_NaN S = false /\ transitionStyleHasChanged S S = false.
Proof.
  intros S. assert (snapshot_has_NaN S = false) as H by (vm_compute; reflexivity).
  split; [exact H|]. exact (transitionStyleHasChanged_same S H).
Defined.

(** C8, counterexample.  [NaN !== NaN]: a snapshot whose opacity is NaN has
    changed from itself. *)
Lemma transitionStyleHasChanged_NaN :
  transitionStyleHasChanged (Some {[ "opacity" := VNum NaN ]})
    (Some {[ "opacity" := VNum NaN ]}) = true.
Proof. vm_compute. reflexivity. Qed.

End Differ.

(* ===================================================================== *)
(** ** The interpolation engine *)
(* ===================================================================== *)

Section Engine.

Context (dev : bool) (animatedValue : option AnimatedValue)
        (previousStyle : option Style).

Implicit Types (acc : AnimatedStyle) (log : list diagnostic)
         (l : list (string * value)).

Lemma warn_app d log : warn dev d log = log ++ warn dev d [].
Proof. unfold warn. destruct dev; [done|]. by rewrite app_nil_r. Qed.

(** An entry writes under its own name only, and appends to the log. *)
Lemma animate_entry_acc acc log property value :
  animate_entry dev animatedValue previousStyle (acc, log) (property, value)
  = (match entry_value dev animatedValue previousStyle property value with
     | Some x => <[property := x]> acc
     | None => acc
     end,
     log ++ entry_log dev animatedValue previousStyle property value).
Proof.
  unfold entry_value, entry_log, animate_entry.
  destruct animatedValue as [av|]; simpl;
    [|by rewrite lookup_insert_eq, app_nil_r].
  repeat match goal with
         | |- context [if ?c then _ else _] => destruct c; simpl
         end;
    rewrite ?lookup_insert_eq, ?lookup_empty, ?app_nil_r; try done.
  destruct value as [| | | | |r transforms|]; simpl;
    rewrite ?lookup_empty, ?app_nil_r; try done.
  unfold animate_transform_property.
  destruct (coalesce _ _); simpl;
    repeat match goal with
           | |- context [if ?c then _ else _] => destruct c; simpl
           end;
    rewrite ?lookup_insert_eq, ?app_nil_r; try done;
    by rewrite warn_app.
Qed.

Lemma fold_lookup l acc log k :
  NoDup l.*1 ->
  (foldl (animate_entry dev animatedValue previousStyle) (acc, log) l).1 !! k
  = match (list_to_map l : Style) !! k
            ≫= entry_value dev animatedValue previousStyle k with
    | Some x => Some x
    | None => acc !! k
    end.
Proof.
  revert acc log; induction l as [|[p v] l IH]; intros acc log Hnd; [done|].
  rewrite fmap_cons in Hnd. apply NoDup_cons in Hnd as [Hp Hnd].
  cbn [foldl list_to_map foldr uncurry].
  rewrite animate_entry_acc, IH by done.
  destruct (decide (p = k)) as [->|Hne].
  - rewrite lookup_insert_eq. simpl.
    rewrite (not_elem_of_list_to_map_1 (M := gmap string)) by done. simpl.
    destruct (entry_value _ _ _ k v); [by rewrite lookup_insert_eq|done].
  - rewrite lookup_insert_ne by done.
    destruct (_ ≫= _); [done|].
    destruct (entry_value _ _ _ p v); [by rewrite lookup_insert_ne|done].
Qed.

Lemma fold_log l acc log :
  (foldl (animate_entry dev animatedValue previousStyle) (acc, log) l).2
  = log ++ flat_map (fun entry => entry_log dev animatedValue previousStyle
                                    entry.1 entry.2) l.
Proof.
  revert acc log; induction l as [|[p v] l IH]; intros acc log;
    cbn [foldl flat_map]; [by rewrite app_nil_r|].
  by rewrite animate_entry_acc, IH, app_assoc.
Qed.

(** The output under a name is the contribution of the entry of that name. *)
Lemma outputAnimatedStyle_lookup (transitionStyle : Style) k :
  (outputAnimatedStyle_of dev animatedValue previousStyle transitionStyle).1
    !! k
  = transitionStyle !! k ≫= entry_value dev animatedValue previousStyle k.
Proof.
  unfold outputAnimatedStyle_of.
  rewrite fold_lookup by apply NoDup_fst_map_to_list.
  rewrite list_to_map_to_list, lookup_empty. by destruct (_ ≫= _).
Qed.

(** Only the entry named [transform] warns. *)
Lemma entry_log_other property value :
  property <> "transform" ->
  entry_log dev animatedValue previousStyle property value = [].
Proof.
  intros Hne. unfold entry_log, animate_entry.
  destruct animatedValue; [|done].
  destruct (String.eqb_spec property "transform"); [done|].
  repeat match goal with
         | |- context [if ?c then _ else _] => destruct c; simpl
         end; done.
Qed.

Lemma flat_map_transform l :
  NoDup l.*1 ->
  flat_map (fun entry => entry_log dev animatedValue previousStyle
                           entry.1 entry.2) l
  = match (list_to_map l : Style) !! "transform" with
    | Some v => entry_log dev animatedValue previousStyle "transform" v
    | None => []
    end.
Proof.
  induction l as [|[p v] l IH]; intros Hnd; [done|].
  rewrite fmap_cons in Hnd. apply NoDup_cons in Hnd as [Hp Hnd].
  cbn [flat_map list_to_map foldr uncurry fst snd]. rewrite IH by done.
  destruct (decide (p = "transform")) as [->|Hne].
  - rewrite lookup_insert_eq.
    rewrite (not_elem_of_list_to_map_1 (M := gmap string)) by done.
    by rewrite app_nil_r.
  - rewrite lookup_insert_ne by done. by rewrite entry_log_other.
Qed.

Lemma outputAnimatedStyle_log (transitionStyle : Style) :
  (outputAnimatedStyle_of dev animatedValue previousStyle transitionStyle).2
  = match transitionStyle !! "transform" with
    | Some v => entry_log dev animatedValue previousStyle "transform" v
    | None => []
    end.
Proof.
  unfold outputAnimatedStyle_of. rewrite fold_log. simpl.
  rewrite flat_map_transform by apply NoDup_fst_map_to_list.
  by rewrite list_to_map_to_list.
Qed.

End Engine.

Section Interpolation.

Context (dev : bool) (previousStyle : option Style) (av : AnimatedValue).

Lemma types_loop_kind_missing (to from : list element) :
  types_loop to from = negb (kind_missing to from).
Proof.
  unfold kind_missing.
  revert from; induction to as [|t to IH]; intros [|f from]; try done.
  cbn [types_loop zip zip_with existsb]. rewrite <- types_differ_kinds, IH.
  by destruct (types_differ t f).
Qed.



Ltac first_kind H t :=
  repeat match type of H with
         | (if present ?k t then _ else _) = _ =>
             let E := fresh "E" in
             destruct (present k t) eqn:E;
             [injection H as <-; split; [exact E|];
              let k' := fresh "k" in
              let Hlt := fresh "Hlt" in
              intros k' Hlt; destruct k'; simpl in Hlt;
              solve [lia | assumption]|]
         end.

(** The first kind of an entry: it is present, and none of higher priority
    is. *)
Lemma first_present_Some t k :
  first_present t = Some k ->
  present k t = true /\ forall k', rank k' < rank k -> present k' t = false.
Proof.
  intros H. unfold first_present, kinds in H. cbn [List.find] in H.
  first_kind H t. done.
Qed.

Lemma first_present_None t :
  first_present t = None -> forall k, present k t = false.
Proof.
  intros H k. unfold first_present in H.
  apply (List.find_none _ _ H k), all_kinds.
Qed.

Ltac kind_step H k f t r :=
  let E := fresh "E" in
  destruct (non_null (get f t)) eqn:E;
  [ try (assert (non_null (get f r) = true) as -> by exact (H k E));
    reflexivity
  | rewrite ?andb_false_r ].

(** The body of the loop emits what the decomposition says. *)
Lemma animate_transform_decompose t r :
  types_differ t r = false -> animate_transform av t r = decompose av t r.
Proof.
  intros Hd. pose proof (proj1 (types_differ_false t r) Hd) as H.
  unfold animate_transform, decompose, first_present, kinds, present.
  cbn [List.find field].
  kind_step H Perspective perspective t r.
  kind_step H Rotate rotate t r.
  kind_step H RotateX rotateX t r.
  kind_step H RotateY rotateY t r.
  kind_step H RotateZ rotateZ t r.
  kind_step H Scale scale t r.
  kind_step H ScaleX scaleX t r.
  kind_step H ScaleY scaleY t r.
  kind_step H ScaleZ scaleZ t r.
  kind_step H SkewX skewX t r.
  kind_step H SkewY skewY t r.
  kind_step H TranslateX translateX t r.
  kind_step H TranslateY translateY t r.
  reflexivity.
Qed.

Lemma animate_transforms_decompose (transforms refTransforms : list element) :
  types_loop transforms refTransforms = true ->
  animate_transforms av transforms refTransforms
  = decompose_all av transforms refTransforms.
Proof.
  unfold decompose_all.
  revert refTransforms; induction transforms as [|t to IH];
    intros [|r from]; try done.
  cbn [types_loop animate_transforms zip zip_with omap list_omap].
  destruct (types_differ t r) eqn:Hd; [done|]. intros Hl.
  rewrite animate_transform_decompose, IH by done. done.
Qed.

(** Every output entry holds one interpolation, under the first kind of
    the entry it comes from. *)
Lemma decompose_Some t r o :
  decompose av t r = Some o ->
  exists k,
    present k t = true
    /\ (forall k', rank k' < rank k -> present k' t = false)
    /\ o = {[ name k :=
                interpolate av
                  [if coerced k then ToNumber (of_field (get (field k) r))
                   else Same (of_field (get (field k) r));
                   Same (of_field (get (field k) t))] ]}.
Proof.
  unfold decompose. destruct (first_present t) as [k|] eqn:Hk; [|done].
  intros [= <-]. apply first_present_Some in Hk as [H1 H2]. eauto.
Qed.

Lemma decompose_None t r :
  decompose av t r = None <-> forall k, present k t = false.
Proof.
  unfold decompose. destruct (first_present t) as [k|] eqn:Hk.
  - apply first_present_Some in Hk as [H1 _]. split; [done|].
    intros H. by rewrite H in H1.
  - split; [|done]. intros _. by apply first_present_None.
Qed.

(** C7.  While a run is active, for a start stack and a target stack that
    are compatible (one length, every kind of a target entry carried by the
    start entry at its position) with no matrix in the target, the output
    for [transform] is the decomposition of the pairs of entries, in order:
    each output entry holds one interpolation, from the start magnitude to
    the target magnitude, under the first kind that the target entry
    carries in the order perspective, rotate, rotateX, rotateY, rotateZ,
    scale, scaleX, scaleY, scaleZ, skewX, skewY, translateX, translateY;
    the other kinds of the entry are not in the output entry (an entry that
    carries no kind gives no output entry).  No diagnostic is raised. *)
Theorem compatible_transform_decomposed (transitionStyle : Style) r items :
  let value := VArr r items in
  let startValue := coalesce (read_opt previousStyle "transform") value in
  let out :=
    outputAnimatedStyle_of dev (Some av) previousStyle transitionStyle in
  transitionStyle !! "transform" = Some value ->
  strict_eq startValue value = false ->
  incompatible startValue items = false ->
  exists r' refTransforms,
    startValue = VArr r' refTransforms
    /\ out.1 !! "transform"
       = Some (Transforms (decompose_all av items refTransforms))
    /\ out.2 = []
    /\ forall i o,
         decompose_all av items refTransforms !! i = Some o ->
         exists j t f k,
           items !! j = Some t /\ refTransforms !! j = Some f
           /\ present k t = true
           /\ (forall k', rank k' < rank k -> present k' t = false)
           /\ o = {[ name k :=
                       interpolate av
                         [if coerced k
                          then ToNumber (of_field (get (field k) f))
                          else Same (of_field (get (field k) f));
                          Same (of_field (get (field k) t))] ]}.
Proof.
  intros value startValue out Ht Hne Hi.
  unfold incompatible in Hi.
  destruct startValue as [| | | | |r' refTransforms|] eqn:Hs; try done.
  apply orb_false_elim in Hi as [[Hl Hk]%orb_false_elim Hm].
  exists r', refTransforms. split; [done|].
  assert (animate_entry dev (Some av) previousStyle (∅, [])
            ("transform", value)
          = (<["transform" :=
                 Transforms (decompose_all av items refTransforms)]> ∅, []))
    as He.
  { unfold animate_entry. fold startValue. rewrite Hs, Hne. subst value.
    cbn [typeof].
    change (String.eqb "object" "number") with false.
    change (String.eqb "object" "string") with false.
    change (String.eqb "transform" "transform") with true. cbv iota.
    unfold animate_transform_property, transformsHaveSameLengthTypesAndOrder.
    rewrite Hl, Hm, types_loop_kind_missing, Hk. cbn [negb].
    by rewrite animate_transforms_decompose
      by by rewrite types_loop_kind_missing, Hk. }
  split; [|split].
  - unfold out. rewrite outputAnimatedStyle_lookup, Ht. simpl.
    unfold entry_value. rewrite He. apply lookup_insert_eq.
  - unfold out. rewrite outputAnimatedStyle_log, Ht.
    unfold entry_log. by rewrite He.
  - intros i o Ho. unfold decompose_all in Ho.
    apply list_elem_of_lookup_2, list_elem_of_omap in Ho
      as ([t f] & Hin & Hd).
    apply list_elem_of_lookup in Hin as [j Hj].
    apply lookup_zip_with_Some in Hj as (t' & f' & [= <- <-] & Hjt & Hjf).
    apply decompose_Some in Hd as (k & H1 & H2 & H3).
    exists j, t, f, k. eauto 10.
Qed.

End Interpolation.

Section Scenarios.

Lemma compatible_transform_decomposed_witness :
  let previousStyle : option Style :=
    Some {[ "transform" := VArr 1 [EObj (single ScaleX (PNum 1%float))] ]} in
  let items := [EObj (single ScaleX (PNum 2%float))] in
  let transitionStyle : Style := {[ "transform" := VArr 2 items ]} in
  let av := Animated_Value 0 in
  let startValue :=
    coalesce (read_opt previousStyle "transform") (VArr 2 items) in
  strict_eq startValue (VArr 2 items) = false
  /\ incompatible startValue items = false
  /\ (outputAnimatedStyle_of true (Some av) previousStyle transitionStyle).1
       !! "transform"
     = Some (Transforms
               [ {[ "scaleX" :=
                      interpolate av
                        [ToNumber (VNum 1%float); Same (VNum 2%float)] ]} ]).
Proof.
  intros previousStyle items transitionStyle av startValue.
  assert (transitionStyle !! "transform" = Some (VArr 2 items)) as H1
    by reflexivity.
  assert (strict_eq startValue (VArr 2 items) = false) as H2 by reflexivity.
  assert (incompatible startValue items = false) as H3 by reflexivity.
  destruct (compatible_transform_decomposed true previousStyle av
              transitionStyle 2%positive items H1 H2 H3)
    as (r' & refTransforms & Hs & Ho & _).
  split; [exact H2|]. split; [exact H3|].
  injection Hs as <- <-. exact Ho.
Defined.


(** A production build: with [__DEV__] off, stacks of different lengths
    give the target as it is and an empty log. *)
Lemma no_diagnostic_in_production :
  let previousStyle : option Style :=
    Some {[ "transform" := VArr 1 [EObj (single Rotate (PStr "0deg"))] ]} in
  let items := [EObj (single Rotate (PStr "90deg"));
                EObj (single Scale (PNum 2%float))] in
  let transitionStyle : Style := {[ "transform" := VArr 2 items ]} in
  let startValue :=
    coalesce (read_opt previousStyle "transform") (VArr 2 items) in
  strict_eq startValue (VArr 2 items) = false
  /\ incompatible startValue items = true
  /\ outputAnimatedStyle_of false (Some (Animated_Value 0)) previousStyle
       transitionStyle
     = ({[ "transform" := Plain (VArr 2 items) ]}, []).
Proof. vm_compute. repeat split; reflexivity. Qed.

End Scenarios.

(* ===================================================================== *)
(** ** The hook *)
(* ===================================================================== *)

Section Hook.

Lemma styleWithAnimations_lookup (style : Style) k :
  styleWithAnimations_of style !! k
  = if bool_decide (k ∈ reserved) then None else style !! k.
Proof.
  unfold styleWithAnimations_of, reserved. rewrite !lookup_delete.
  case_bool_decide as Hk.
  - rewrite !elem_of_cons, elem_of_nil in Hk.
    by destruct Hk as [->|[->|[->|[->|[]]]]].
  - rewrite !not_elem_of_cons in Hk. destruct Hk as (H1 & H2 & H3 & H4 & _).
    repeat case_decide; congruence.
Qed.

(** What the hook returns when nothing has changed: [styleWithAnimations]
    with [outputAnimatedStyle] assigned onto it. *)
Lemma useStyleTransition_merge dev st (style transitionStyle : Style) :
  transitionStyleHasChanged (Some transitionStyle) (currentStyle st) = false ->
  transitionStyle_of style = Some transitionStyle ->
  let out :=
    outputAnimatedStyle_of dev (animatedValue st) (previousStyle st)
      transitionStyle in
  useStyleTransition dev st style
  = {| returned := out.1 ∪ (Plain <$> styleWithAnimations_of style);
       state_after := st;
       warnings := out.2;
       metadata := metadata_of style |}.
Proof.
  intros Hc Ht out. unfold useStyleTransition. rewrite Ht, Hc.
  subst out. by destruct (outputAnimatedStyle_of _ _ _ _).
Qed.

(** C4, as amended.  When the Style Differ reports a change the hook
    returns the raw input style as it is, directive keys included (that
    commit is thrown away).  When it reports none and [transitionProperty]
    is a string, a property outside the transitionable subset is absent
    from the returned style if it is one of the four reserved directive
    keys, and is passed through from the raw input otherwise. *)
Theorem returned_style dev st (style : Style) :
  let result := useStyleTransition dev st style in
  let changed :=
    transitionStyleHasChanged (transitionStyle_of style) (currentStyle st) in
  (changed = true -> returned result = Plain <$> style)
  /\ (changed = false ->
      forall transitionStyle k,
        transitionStyle_of style = Some transitionStyle ->
        transitionStyle !! k = None ->
        returned result !! k
        = if bool_decide (k ∈ reserved) then None else Plain <$> style !! k).
Proof.
  intros result changed. subst result changed. unfold useStyleTransition.
  destruct (transitionStyleHasChanged _ _); (split; [done|]); [done|].
  intros _ ts k Hts Hk. rewrite Hts.
  pose proof (outputAnimatedStyle_lookup dev (animatedValue st)
                (previousStyle st) ts k) as Ho.
  destruct (outputAnimatedStyle_of _ _ _ ts) as [out log]. simpl in *.
  rewrite Hk in Ho. simpl in Ho.
  rewrite lookup_union_r, lookup_fmap, styleWithAnimations_lookup by done.
  by case_bool_decide.
Qed.

Lemma returned_style_witness :
  let style0 : Style :=
    {[ "opacity" := VNum 0%float; "color" := VStr "red";
       "transitionProperty" := VStr "opacity";
       "transitionDuration" := VNum 300%float ]} in
  let style1 : Style := <["opacity" := VNum 1%float]> style0 in
  transitionStyleHasChanged (transitionStyle_of style1)
    (currentStyle (mount style0)) = true
  /\ returned (useStyleTransition true (mount style0) style1)
     = Plain <$> style1
  /\ transitionStyleHasChanged (transitionStyle_of style1)
       (currentStyle (mount style1)) = false
  /\ returned (useStyleTransition true (mount style1) style1) !! "color"
     = Some (Plain (VStr "red"))
  /\ returned (useStyleTransition true (mount style1) style1)
       !! "transitionDuration" = None.
Proof.
  intros style0 style1.
  assert (transitionStyleHasChanged (transitionStyle_of style1)
            (currentStyle (mount style0)) = true) as H1
    by (vm_compute; reflexivity).
  assert (transitionStyleHasChanged (transitionStyle_of style1)
            (currentStyle (mount style1)) = false) as H2
    by (vm_compute; reflexivity).
  assert (transitionStyle_of style1 = Some {[ "opacity" := VNum 1%float ]})
    as H3 by (vm_compute; reflexivity).
  pose proof (proj1 (returned_style true (mount style0) style1) H1) as Ha.
  pose proof (proj2 (returned_style true (mount style1) style1) H2) as Hb.
  split; [exact H1|]. split; [exact Ha|]. split; [exact H2|]. split.
  - rewrite (Hb _ "color" H3) by (vm_compute; reflexivity).
    vm_compute. reflexivity.
  - rewrite (Hb _ "transitionDuration" H3) by (vm_compute; reflexivity).
    vm_compute. reflexivity.
Defined.

(** C4, counterexample.  On an update that changes the opacity the hook
    returns the input style, which holds [transitionDuration] and
    [transitionProperty]. *)
Lemma returned_style_keeps_directives :
  let style0 : Style :=
    {[ "opacity" := VNum 0%float; "transitionProperty" := VStr "opacity";
       "transitionDuration" := VNum 300%float ]} in
  let style1 : Style := <["opacity" := VNum 1%float]> style0 in
  returned (useStyleTransition true (mount style0) style1)
    !! "transitionDuration" = Some (Plain (VNum 300%float))
  /\ returned (useStyleTransition true (mount style0) style1)
       !! "transitionProperty" = Some (Plain (VStr "opacity")).
Proof. vm_compute. split; reflexivity. Qed.

End Hook.

(* ===================================================================== *)
(** ** Runs of the hook *)
(* ===================================================================== *)

Section Runs.

(** A first render with [opacity: 0], then an update to [opacity: 1] with
    [transitionProperty: "opacity"] and [transitionDuration: 300]: the run
    that starts is eligible for the native driver, lasts 300 ms after no
    delay, and is linear; on the render that follows, the opacity is bound
    to the animated value. *)
Example run_opacity :
  let style0 : Style :=
    {[ "opacity" := VNum 0%float; "transitionProperty" := VStr "opacity";
       "transitionDuration" := VNum 300%float ]} in
  let style1 : Style := <["opacity" := VNum 1%float]> style0 in
  let update := useStyleTransition true (mount style0) style1 in
  let av := Animated_Value 0 in
  animatedValue (state_after update) = Some av
  /\ trigger (animatedValue (state_after update)) (metadata update)
     = Return
         (Some
            (Animated_sequence
               [Animated_delay 0%float;
                Animated_timing av
                  {| toValue := 1%float; timing_duration := 300%float;
                     easing := Easing_linear; useNativeDriver := true |}]))
  /\ returned (useStyleTransition true (state_after update) style1)
     = {[ "opacity" :=
            Interpolated
              (interpolate av [ToNumber (VNum 0%float); Same (VNum 1%float)]) ]}.
Proof. vm_compute. repeat split; reflexivity. Qed.

(** [transitionProperty: "all"] and a transform from [[{scaleX: 1}]] to
    [[{scaleX: 2}]]: eligible for the native driver, and [scaleX] is
    interpolated from 1 to 2. *)
Example run_scaleX :
  let style0 : Style :=
    {[ "transform" := VArr 1 [EObj (single ScaleX (PNum 1%float))];
       "transitionProperty" := VStr "all" ]} in
  let style1 : Style :=
    <["transform" := VArr 2 [EObj (single ScaleX (PNum 2%float))]]> style0 in
  let update := useStyleTransition true (mount style0) style1 in
  shouldUseNativeDriver (metadata update) = true
  /\ returned (useStyleTransition true (state_after update) style1)
     = {[ "transform" :=
            Transforms
              [ {[ "scaleX" :=
                     interpolate (Animated_Value 0)
                       [ToNumber (VNum 1%float); Same (VNum 2%float)] ]} ] ]}.
Proof. vm_compute. repeat split; reflexivity. Qed.

(** A transform from [[{rotate: "0deg"}]] to
    [[{rotate: "90deg"}, {scale: 2}]]: the new value as it is, and one
    warning. *)
Example run_length_mismatch :
  let style0 : Style :=
    {[ "transform" := VArr 1 [EObj (single Rotate (PStr "0deg"))];
       "transitionProperty" := VStr "transform" ]} in
  let target :=
    VArr 2 [EObj (single Rotate (PStr "90deg"));
            EObj (single Scale (PNum 2%float))] in
  let style1 : Style := <["transform" := target]> style0 in
  let update := useStyleTransition true (mount style0) style1 in
  let render := useStyleTransition true (state_after update) style1 in
  returned render = {[ "transform" := Plain target ]}
  /\ warnings render = [NumberOrTypesMustBeTheSame].
Proof. vm_compute. repeat split; reflexivity. Qed.

(** The effect that starts the run raises when the timing function holds
    [cubic-bezier] and no parenthesis. *)
Example run_raises :
  trigger (Some (Animated_Value 0))
    {| delay := 0%float; duration := 16%float;
       timingFunction := Some "cubic-bezier";
       shouldUseNativeDriver := true |}
  = Throw (TypeError "Cannot read properties of undefined (reading 'split')").
Proof. reflexivity. Qed.

End Runs.

(* ===================================================================== *)
(** ** The transitionable subset *)
(* ===================================================================== *)

Section Subset.

Lemma foldl_pick_lookup (style : Style) names (acc : Style) k :
  foldl (pick style) acc names !! k
  = if bool_decide (k ∈ names) && transitionable (read style k)
    then Some (read style k) else acc !! k.
Proof.
  revert acc; induction names as [|p names IH]; intros acc; [done|].
  cbn [foldl]. rewrite IH.
  destruct (decide (k = p)) as [->|Hne].
  - rewrite (bool_decide_eq_true_2 (p ∈ p :: names)) by left.
    unfold pick. fold (transitionable (read style p)).
    destruct (transitionable (read style p)) eqn:Ht.
    + by rewrite lookup_insert_eq, andb_true_r, Tauto.if_same.
    + by rewrite !andb_false_r.
  - assert (bool_decide (k ∈ p :: names) = bool_decide (k ∈ names)) as ->.
    { apply bool_decide_ext. rewrite elem_of_cons. tauto. }
    destruct (_ && _); [done|]. unfold pick.
    destruct (_ || _); [|done]. by rewrite lookup_insert_ne.
Qed.

(** A value that passes the guard is not [undefined]: reading it is finding
    it. *)
Lemma transitionable_read (style : Style) k v :
  transitionable v = true -> read style k = v <-> style !! k = Some v.
Proof.
  unfold read. intros Ht. destruct (style !! k) as [w|]; simpl.
  - split; [by intros ->|by intros [= ->]].
  - split; [|done]. intros <-. done.
Qed.

Lemma transitionStyle_of_lookup (style transitionStyle : Style) names k v :
  getTransitionProperties (read style "transitionProperty") = Some names ->
  transitionStyle_of style = Some transitionStyle ->
  transitionStyle !! k = Some v
  <-> k ∈ names /\ style !! k = Some v /\ transitionable v = true.
Proof.
  unfold transitionStyle_of. intros -> [= <-].
  rewrite foldl_pick_lookup, lookup_empty.
  case_bool_decide as Hk; simpl; [|split; [done|tauto]].
  destruct (transitionable (read style k)) eqn:Ht.
  - split.
    + intros [= <-]. split; [done|]. split; [|done].
      by apply transitionable_read.
    + intros (_ & Hv & Hv'). f_equal. by apply transitionable_read.
  - split; [done|]. intros (_ & Hv & Hv').
    apply transitionable_read in Hv; [|done]. congruence.
Qed.

Lemma transitionStyle_of_subseteq (style transitionStyle : Style) :
  transitionStyle_of style = Some transitionStyle -> transitionStyle ⊆ style.
Proof.
  intros Ht. apply map_subseteq_spec. intros k v Hk.
  destruct (getTransitionProperties (read style "transitionProperty"))
    as [names|] eqn:Hn.
  - pose proof (proj1 (transitionStyle_of_lookup _ _ _ k v Hn Ht) Hk)
      as (_ & Hs & _).
    exact Hs.
  - unfold transitionStyle_of in Ht. by rewrite Hn in Ht.
Qed.

(** X1.  The transitionable subset that the hook builds (lines 207-215):
    when [transitionProperty] resolves to a list of names, [transitionStyle]
    holds exactly the properties of the style that the list names and whose
    value is a string, a number or an array, each with the value the style
    gives it.  A name that the style lacks, or whose value is of another
    type, is left out; a name listed twice counts once; the subset is a part
    of the style. *)
Theorem transitionStyle_subset (style transitionStyle : Style) :
  transitionStyle_of style = Some transitionStyle ->
  exists names,
    getTransitionProperties (read style "transitionProperty") = Some names
    /\ (forall k v,
          transitionStyle !! k = Some v
          <-> k ∈ names /\ style !! k = Some v /\ transitionable v = true)
    /\ transitionStyle ⊆ style.
Proof.
  intros Ht.
  destruct (getTransitionProperties (read style "transitionProperty"))
    as [names|] eqn:Hn.
  - exists names. split; [done|]. split.
    + intros k v. by apply transitionStyle_of_lookup.
    + by apply transitionStyle_of_subseteq.
  - unfold transitionStyle_of in Ht. by rewrite Hn in Ht.
Qed.

Lemma transitionStyle_subset_witness :
  let style : Style :=
    {[ "opacity" := VNum 1%float; "hidden" := VBool true;
       "color" := VStr "red";
       "transitionProperty" := VStr "opacity, hidden, width, opacity" ]} in
  let transitionStyle : Style := {[ "opacity" := VNum 1%float ]} in
  transitionStyle_of style = Some transitionStyle
  /\ transitionStyle ⊆ style.
Proof.
  intros style transitionStyle.
  assert (transitionStyle_of style = Some transitionStyle) as H
    by (vm_compute; reflexivity).
  destruct (transitionStyle_subset style transitionStyle H)
    as (names & _ & _ & Hs).
  split; [exact H|exact Hs].
Defined.

End Subset.

(* ===================================================================== *)
(** ** More on the style differ *)
(* ===================================================================== *)

Section DifferDecides.

Lemma hasChanged_loop_true (prev : Style) (next : list (string * value)) :
  hasChanged_loop prev next = true
  <-> Exists (fun entry => entry_changed prev entry.1 entry.2 = true) next.
Proof.
  induction next as [|[k v] next IH]; simpl.
  - split; [done|]. by intros ?%Exists_nil.
  - rewrite Exists_cons, <- IH. unfold entry_changed. simpl.
    destruct (negb (String.eqb _ _)); simpl; [tauto|].
    destruct (transforms_changed _ _); simpl; [tauto|].
    destruct (negb (strict_eq _ _)); simpl; [tauto|].
    split; [tauto|]. by intros [?|?].
Qed.

Lemma hasChanged_loop_perm (prev : Style) (l l' : list (string * value)) :
  l ≡ₚ l' -> hasChanged_loop prev l = hasChanged_loop prev l'.
Proof.
  intros Hp. apply eq_true_iff_eq. rewrite !hasChanged_loop_true.
  by rewrite Hp.
Qed.

Lemma transitionStyleHasChanged_Some (next prev : Style) :
  transitionStyleHasChanged (Some next) (Some prev) = true
  <-> exists k v, next !! k = Some v /\ entry_changed prev k v = true.
Proof.
  cbn. rewrite hasChanged_loop_true, Exists_exists. split.
  - intros ([k v] & Hin%elem_of_map_to_list & Hc). eauto.
  - intros (k & v & Hin%elem_of_map_to_list & Hc). by exists (k, v).
Qed.

(** X2.  What [transitionStyleHasChanged] decides (lines 152-190).  It
    reports a change exactly when [next] is defined and either [prev] is
    undefined, or some property of [next] has a value whose [typeof] differs
    from that of the value [prev] gives it, or both values are arrays that
    [transformListsAreEqual] tells apart, or the two values are not
    identical ([!==]).  A property that [prev] lacks reads as [undefined]
    there. *)
Theorem transitionStyleHasChanged_decides next prev :
  transitionStyleHasChanged next prev = true
  <-> exists next',
        next = Some next'
        /\ (prev = None
            \/ exists prev' k v,
                 prev = Some prev' /\ next' !! k = Some v
                 /\ (typeof (read prev' k) <> typeof v
                     \/ transforms_changed (read prev' k) v = true
                     \/ strict_eq (read prev' k) v = false)).
Proof.
  destruct next as [next'|]; [|split; [done|by intros (? & [=] & _)]].
  destruct prev as [prev'|].
  - rewrite transitionStyleHasChanged_Some. split.
    + intros (k & v & Hk & Hc). exists next'. split; [done|]. right.
      exists prev', k, v. split; [done|]. split; [done|].
      unfold entry_changed in Hc. cbv zeta in Hc.
      apply orb_prop in Hc as [[Hc|Hc]%orb_prop|Hc]; [left|eauto|].
      * apply negb_true_iff in Hc. by apply String.eqb_neq.
      * right; right. by apply negb_true_iff.
    + intros (n & [= <-] & [[=]|(p & k & v & [= <-] & Hk & Hc)]).
      exists k, v. split; [done|]. unfold entry_changed. cbv zeta.
      destruct Hc as [Hc|[Hc|Hc]].
      * apply String.eqb_neq in Hc. by rewrite Hc.
      * rewrite Hc. by rewrite orb_true_r.
      * rewrite Hc. by rewrite orb_true_r.
  - split; [|done]. intros _. exists next'. eauto.
Qed.

Lemma transitionStyleHasChanged_subseteq (next prev : Style) :
  next ⊆ prev -> snapshot_has_NaN (Some next) = false ->
  transitionStyleHasChanged (Some next) (Some prev) = false.
Proof.
  intros Hs Hn. cbn. apply hasChanged_loop_same, Forall_forall.
  intros [k v] Hin. simpl. split.
  - apply elem_of_map_to_list in Hin.
    by apply (lookup_weaken _ _ _ _ Hin).
  - destruct (value_has_NaN v) eqn:Hv; [|done].
    apply not_true_iff_false in Hn. destruct Hn. apply existsb_exists.
    exists (k, v). split; [by apply list_elem_of_In|done].
Qed.

(** X3.  A snapshot [next] that holds no NaN has not changed from any
    snapshot [prev] that holds all its properties with the same values
    (the same arrays, for arrays): what [prev] holds besides does not
    count.  So dropping a property from the transitionable subset is not a
    change. *)
Theorem unchanged_when_held (next prev : Style) :
  next ⊆ prev -> snapshot_has_NaN (Some next) = false ->
  transitionStyleHasChanged (Some next) (Some prev) = false.
Proof. apply transitionStyleHasChanged_subseteq. Qed.

Lemma unchanged_when_held_witness :
  let next : Style := {[ "opacity" := VNum 1%float ]} in
  let prev : Style := {[ "opacity" := VNum 1%float; "color" := VStr "red" ]} in
  next ⊆ prev
  /\ snapshot_has_NaN (Some next) = false
  /\ transitionStyleHasChanged (Some next) (Some prev) = false.
Proof.
  intros next prev.
  assert (next ⊆ prev) as H1.
  { apply map_subseteq_spec. intros k v. unfold next.
    rewrite lookup_singleton_Some. intros [<- <-]. vm_compute. reflexivity. }
  assert (snapshot_has_NaN (Some next) = false) as H2
    by (vm_compute; reflexivity).
  split; [exact H1|]. split; [exact H2|].
  exact (unchanged_when_held next prev H1 H2).
Defined.

Lemma entry_changed_agree (prev prev' : Style) k v :
  prev !! k = prev' !! k -> entry_changed prev k v = entry_changed prev' k v.
Proof. unfold entry_changed, read. by intros ->. Qed.

(** X4.  The comparison runs over the properties of [next] only: two
    previous snapshots that agree on every property of [next] give the same
    answer, whatever else they hold. *)
Theorem previous_only_ignored (next prev prev' : Style) :
  (forall k, is_Some (next !! k) -> prev !! k = prev' !! k) ->
  transitionStyleHasChanged (Some next) (Some prev)
  = transitionStyleHasChanged (Some next) (Some prev').
Proof.
  intros H. apply eq_true_iff_eq. rewrite !transitionStyleHasChanged_Some.
  split; intros (k & v & Hk & Hc); exists k, v; (split; [done|]).
  - by rewrite <- (entry_changed_agree prev prev') by eauto.
  - by rewrite (entry_changed_agree prev prev') by eauto.
Qed.

Lemma previous_only_ignored_witness :
  let next : Style := {[ "opacity" := VNum 1%float ]} in
  let prev : Style := {[ "opacity" := VNum 0%float; "color" := VStr "red" ]} in
  let prev' : Style := {[ "opacity" := VNum 0%float ]} in
  transitionStyleHasChanged (Some next) (Some prev)
  = transitionStyleHasChanged (Some next) (Some prev').
Proof.
  intros next prev prev'. apply (previous_only_ignored next prev prev').
  intros k [v Hk]. unfold next in Hk.
  apply lookup_singleton_Some in Hk as [<- _]. vm_compute. reflexivity.
Defined.

(** X23.  Arrays are compared by identity in the end (line 184): a
    property that holds an array in [next] and another array object in
    [prev] is a change, whatever the two arrays hold, equal stacks
    included.  The comparison of the stacks by [transformListsAreEqual]
    (lines 175-181) can only report more changes, not fewer. *)
Theorem fresh_array_changes (next prev : Style) k r items r' items' :
  next !! k = Some (VArr r items) ->
  prev !! k = Some (VArr r' items') ->
  r <> r' ->
  transitionStyleHasChanged (Some next) (Some prev) = true.
Proof.
  intros Hn Hp Hr. apply transitionStyleHasChanged_Some.
  exists k, (VArr r items). split; [done|].
  unfold entry_changed, read. rewrite Hp. simpl.
  apply Pos.eqb_neq in Hr. rewrite Pos.eqb_sym, Hr.
  by rewrite orb_true_r.
Qed.

Lemma fresh_array_changes_witness :
  let items := [EObj (single Rotate (PStr "90deg"))] in
  let next : Style := {[ "transform" := VArr 2 items ]} in
  let prev : Style := {[ "transform" := VArr 1 items ]} in
  transformListsAreEqual items items = true
  /\ transitionStyleHasChanged (Some next) (Some prev) = true.
Proof.
  intros items next prev.
  assert (next !! "transform" = Some (VArr 2 items)) as H1
    by (vm_compute; reflexivity).
  assert (prev !! "transform" = Some (VArr 1 items)) as H2
    by (vm_compute; reflexivity).
  assert (2%positive <> 1%positive) as H3 by lia.
  split; [vm_compute; reflexivity|].
  exact (fresh_array_changes next prev "transform" 2%positive items
           1%positive items H1 H2 H3).
Defined.

(** Nothing is identical to NaN. *)
Lemma number_strict_eq_NaN x n : isNaN n = true -> number_strict_eq x n = false.
Proof.
  unfold isNaN, number_strict_eq, PrimFloat.is_nan.
  rewrite negb_true_iff, !FloatAxioms.eqb_spec. unfold SFeqb.
  destruct (Prim2SF n) as [s|s| |s m e] eqn:Hn; simpl.
  - by destruct s.
  - by destruct s.
  - intros _. by destruct (Prim2SF x).
  - change (PosDef.Pos.compare_cont Eq m m) with (Pos.compare m m).
    rewrite Z.compare_refl, Pos.compare_refl. by destruct s.
Qed.

Lemma state_after_eq dev st (style : Style) :
  state_after (useStyleTransition dev st style)
  = if transitionStyleHasChanged (transitionStyle_of style) (currentStyle st)
    then {| currentStyle := Some style;
            previousStyle := currentStyle st;
            animatedValue := Some (Animated_Value (allocated st));
            allocated := S (allocated st) |}
    else st.
Proof.
  unfold useStyleTransition.
  destruct (transitionStyleHasChanged _ _); [done|].
  destruct (transitionStyle_of style); [|done].
  by destruct (outputAnimatedStyle_of _ _ _ _).
Qed.

(** X5.  A transitionable subset in which a number is NaN has changed from
    every previous snapshot, itself included.  The hook then calls its
    state setters on every render of such a style: it stores the style,
    and creates a new [Animated.Value], each time. *)
Theorem NaN_always_changes (next : Style) k n :
  next !! k = Some (VNum n) -> isNaN n = true ->
  (forall prev, transitionStyleHasChanged (Some next) prev = true)
  /\ forall dev st (style : Style),
       transitionStyle_of style = Some next ->
       state_after (useStyleTransition dev st style)
       = {| currentStyle := Some style;
            previousStyle := currentStyle st;
            animatedValue := Some (Animated_Value (allocated st));
            allocated := S (allocated st) |}.
Proof.
  intros Hk Hn.
  assert (forall prev, transitionStyleHasChanged (Some next) prev = true) as H.
  { intros [prev|]; [|done]. apply transitionStyleHasChanged_Some.
    exists k, (VNum n). split; [done|]. unfold entry_changed. cbv zeta.
    destruct (read prev k) as [| |b|x|s|r items|r]; try done.
    simpl. by rewrite number_strict_eq_NaN. }
  split; [done|]. intros dev st style Ht. by rewrite state_after_eq, Ht, H.
Qed.

Lemma NaN_always_changes_witness :
  let next : Style := {[ "opacity" := VNum NaN ]} in
  isNaN NaN = true
  /\ transitionStyleHasChanged (Some next) (Some next) = true.
Proof.
  intros next.
  assert (next !! "opacity" = Some (VNum NaN)) as H1
    by (vm_compute; reflexivity).
  assert (isNaN NaN = true) as H2 by (vm_compute; reflexivity).
  split; [exact H2|].
  exact (proj1 (NaN_always_changes next "opacity" NaN H1 H2) (Some next)).
Defined.

End DifferDecides.

(* ===================================================================== *)
(** ** The order of enumeration *)
(* ===================================================================== *)

Section Enumeration.

Lemma canUseNativeDriver_loop_perm (l l' : list (string * value)) :
  l ≡ₚ l' -> canUseNativeDriver_loop l = canUseNativeDriver_loop l'.
Proof.
  intros Hp. apply eq_true_iff_eq. rewrite !canUseNativeDriver_loop_true.
  by rewrite Hp.
Qed.

(** X6.  The two [for ... in] loops (lines 45-58 and 165-187) do not depend
    on the order in which the properties of the object come: run over any
    enumeration of the properties, each once, they give what
    [transitionStyleHasChanged] and [canUseNativeDriver] give for the
    object. *)
Theorem for_in_order_immaterial (prev : Style) (l : list (string * value)) :
  NoDup l.*1 ->
  hasChanged_loop prev l
  = transitionStyleHasChanged (Some (list_to_map l)) (Some prev)
  /\ canUseNativeDriver_loop l = canUseNativeDriver (Some (list_to_map l)).
Proof.
  intros Hnd. pose proof (map_to_list_to_map (M := gmap string) l Hnd) as Hp.
  split.
  - cbn. symmetry. by apply hasChanged_loop_perm.
  - cbn. symmetry. by apply canUseNativeDriver_loop_perm.
Qed.

Lemma for_in_order_immaterial_witness :
  let l := [("transform", VArr 1 []); ("opacity", VNum 1%float)] in
  let l' := [("opacity", VNum 1%float); ("transform", VArr 1 [])] in
  hasChanged_loop ∅ l = hasChanged_loop ∅ l'
  /\ canUseNativeDriver_loop l = canUseNativeDriver_loop l'.
Proof.
  intros l l'.
  assert (NoDup l.*1) as H
    by (apply (bool_decide_unpack _); vm_compute; exact I).
  assert (NoDup l'.*1) as H'
    by (apply (bool_decide_unpack _); vm_compute; exact I).
  destruct (for_in_order_immaterial ∅ l H) as [H1 H2].
  destruct (for_in_order_immaterial ∅ l' H') as [H1' H2'].
  split.
  - rewrite H1, H1'. vm_compute. reflexivity.
  - rewrite H2, H2'. vm_compute. reflexivity.
Defined.

End Enumeration.

(* ===================================================================== *)
(** ** More on the native driver *)
(* ===================================================================== *)

Section Eligibility.

(** X7.  What [canUseNativeDriver] decides (lines 39-60).  It returns true
    exactly when its argument is defined and each of its properties is
    [opacity], whatever its value, or is [transform] with a value that is
    an array none of whose elements is the string ['skew'].  So an object
    with no property is accepted, and any other property is refused. *)
Theorem canUseNativeDriver_decides transitionProperties :
  canUseNativeDriver transitionProperties = true
  <-> exists properties : Style,
        transitionProperties = Some properties
        /\ forall property value,
             properties !! property = Some value ->
             property = "opacity"
             \/ (property = "transform"
                 /\ exists r items, value = VArr r items
                                    /\ array_includes items "skew" = false).
Proof.
  destruct transitionProperties as [properties|].
  - rewrite canUseNativeDriver_true. split.
    + intros H. exists properties. split; [done|]. exact H.
    + intros (p & [= <-] & H). exact H.
  - split; [done|]. by intros (p & [=] & _).
Qed.

(** X8.  Under [transitionProperty: "all"] the flag [shouldUseNativeDriver]
    that the hook computes depends on the [transform] of the style alone:
    it is false when [transform] is a string or a number, or an array that
    holds the string ['skew'], and true otherwise, whatever [opacity]
    is. *)
Theorem all_native_driver (style : Style) :
  let transform := read style "transform" in
  read style "transitionProperty" = VStr "all" ->
  shouldUseNativeDriver (metadata_of style)
  = negb (isString transform || isNumber transform || includes_skew transform).
Proof.
  intros transform Hp. unfold metadata_of. cbn [shouldUseNativeDriver].
  assert (getTransitionProperties (read style "transitionProperty")
          = Some ["opacity"; "transform"]) as Hn by by rewrite Hp.
  destruct (transitionStyle_of style) as [ts|] eqn:Ht;
    [|unfold transitionStyle_of in Ht; by rewrite Hn in Ht].
  pose proof (fun k v => transitionStyle_of_lookup style ts _ k v Hn Ht) as Hl.
  apply eq_true_iff_eq. rewrite canUseNativeDriver_true, negb_true_iff.
  split.
  - intros H.
    destruct (isString transform || isNumber transform) eqn:Hs; simpl.
    + assert (ts !! "transform" = Some transform) as Hk.
      { apply Hl. split; [rewrite !elem_of_cons; auto|]. split.
        - apply transitionable_read; [|done]. unfold transitionable.
          by rewrite Hs.
        - unfold transitionable. by rewrite Hs. }
      destruct (H _ _ Hk) as [[=]|(_ & r & items & Hv & _)].
      rewrite Hv in Hs. done.
    + destruct transform as [| | | | |r items|] eqn:Hv; try done. simpl.
      assert (ts !! "transform" = Some (VArr r items)) as Hk.
      { apply Hl. split; [rewrite !elem_of_cons; auto|]. split; [|done].
        by apply transitionable_read. }
      destruct (H _ _ Hk) as [[=]|(_ & r' & items' & [= <- <-] & Hi)]. done.
  - intros Hs k v Hk. apply Hl in Hk as (Hin & Hv & Hv').
    apply elem_of_cons in Hin as [->|Hin]; [by left|].
    apply list_elem_of_singleton in Hin as ->. right. split; [done|].
    apply transitionable_read in Hv; [|done]. fold transform in Hv.
    rewrite Hv in Hs.
    destruct v as [| | | | |r items|]; try done. eauto.
Qed.

Lemma all_native_driver_witness :
  let style : Style :=
    {[ "transitionProperty" := VStr "all";
       "transform" := VStr "rotate(10deg)" ]} in
  read style "transitionProperty" = VStr "all"
  /\ shouldUseNativeDriver (metadata_of style) = false.
Proof.
  intros style.
  assert (read style "transitionProperty" = VStr "all") as H
    by (vm_compute; reflexivity).
  split; [exact H|].
  rewrite (all_native_driver style H). vm_compute. reflexivity.
Defined.

End Eligibility.

(* ===================================================================== *)
(** ** More on the compatibility checker *)
(* ===================================================================== *)

Section Shape.

Implicit Types (a b c : list element).

(** X9.  What [transformsHaveSameLengthTypesAndOrder] decides (lines
    90-119): it returns true exactly when the two lists have one length
    and, at every index, every kind other than the matrix that [a[i]]
    carries is carried by [b[i]].  The relation is transitive; magnitudes
    are not looked at. *)
Theorem transformsHaveSameLengthTypesAndOrder_decides a b :
  (transformsHaveSameLengthTypesAndOrder a b = true
   <-> length a = length b
       /\ forall i ea eb, a !! i = Some ea -> b !! i = Some eb ->
            forall k, present k ea = true -> present k eb = true)
  /\ (forall c,
        transformsHaveSameLengthTypesAndOrder a b = true ->
        transformsHaveSameLengthTypesAndOrder b c = true ->
        transformsHaveSameLengthTypesAndOrder a c = true).
Proof.
  split; [apply sameShape_true|].
  intros c [Hl1 H1]%sameShape_true [Hl2 H2]%sameShape_true.
  apply sameShape_true. split; [congruence|].
  intros i ea ec Ha Hc k Hk.
  destruct (lookup_lt_is_Some_2 b i) as [eb Hb].
  { rewrite <- Hl1. by eapply lookup_lt_Some. }
  eauto.
Qed.

End Shape.

(* ===================================================================== *)
(** ** More on the interpolation engine *)
(* ===================================================================== *)

Section Entries.

Context (dev : bool) (animatedValue : option AnimatedValue)
        (previousStyle : option Style).

Lemma entry_value_rendered property value :
  entry_value dev animatedValue previousStyle property value
  = rendered dev animatedValue previousStyle property value.
Proof.
  unfold entry_value, rendered, animate_entry, isNumber, isString.
  cbv beta iota zeta.
  destruct animatedValue as [av|]; [|apply lookup_insert_eq].
  destruct (strict_eq _ value); [apply lookup_insert_eq|].
  destruct (String.eqb (typeof value) "number"); [apply lookup_insert_eq|].
  destruct (String.eqb (typeof value) "string"); [apply lookup_insert_eq|].
  destruct (String.eqb property "transform"); [|done].
  destruct value; try done.
  destruct (animate_transform_property _ _ _ _ _ _) as [o l].
  apply lookup_insert_eq.
Qed.

Lemma outputAnimatedStyle_rendered (transitionStyle : Style) k :
  (outputAnimatedStyle_of dev animatedValue previousStyle transitionStyle).1
    !! k
  = transitionStyle !! k ≫= rendered dev animatedValue previousStyle k.
Proof.
  rewrite outputAnimatedStyle_lookup. destruct (transitionStyle !! k); [|done].
  apply entry_value_rendered.
Qed.

(** An entry warns at most once, and only in a development build while a
    run is active. *)
Lemma entry_log_bounded property value :
  entry_log dev animatedValue previousStyle property value = []
  \/ (dev = true /\ is_Some animatedValue
      /\ exists d,
           entry_log dev animatedValue previousStyle property value = [d]).
Proof.
  unfold entry_log, animate_entry.
  destruct animatedValue as [av|]; [|by left]. cbv zeta.
  repeat match goal with
         | |- context [if ?c then _ else _] => destruct c; simpl; [by left|]
         end.
  destruct (String.eqb property "transform"); [|by left].
  destruct value as [| | | | |r transforms|]; try by left.
  unfold animate_transform_property, warn.
  destruct dev; simpl.
  - destruct (coalesce _ _); simpl;
      try (right; split; [done|]; split; [by eexists|]; by eexists).
    repeat match goal with
           | |- context [if ?c then _ else _] =>
               destruct c; simpl;
               [right; split; [done|]; split; [by eexists|]; by eexists|]
           end.
    by left.
  - left. destruct (coalesce _ _); simpl; try done.
    repeat match goal with
           | |- context [if ?c then _ else _] => destruct c; simpl; [done|]
           end.
    done.
Qed.

End Entries.

Section EngineProperties.

(** With no run, every entry is rendered as it is. *)
Lemma outputAnimatedStyle_no_run dev previousStyle (transitionStyle : Style) :
  outputAnimatedStyle_of dev None previousStyle transitionStyle
  = (Plain <$> transitionStyle, []).
Proof.
  pose proof (outputAnimatedStyle_rendered dev None previousStyle
                transitionStyle) as H1.
  pose proof (outputAnimatedStyle_log dev None previousStyle transitionStyle)
    as H2.
  destruct (outputAnimatedStyle_of _ _ _ _) as [out log]. simpl in *.
  f_equal.
  - apply map_eq. intros k. rewrite H1, lookup_fmap.
    by destruct (transitionStyle !! k).
  - rewrite H2. by destruct (transitionStyle !! "transform").
Qed.

(** X10.  A property whose start value is identical ([===]) to its value is
    rendered as it is, run or no run, whatever its type (lines 291-294).
    The start value is what the previous style gives the property, or the
    value itself when that is undefined or null. *)
Theorem same_start_verbatim dev animatedValue previousStyle
    (transitionStyle : Style) k v :
  transitionStyle !! k = Some v ->
  strict_eq (coalesce (read_opt previousStyle k) v) v = true ->
  (outputAnimatedStyle_of dev animatedValue previousStyle transitionStyle).1
    !! k = Some (Plain v).
Proof.
  intros Hk Hs. rewrite outputAnimatedStyle_rendered, Hk. simpl.
  unfold rendered. destruct animatedValue; [|done]. cbv zeta. by rewrite Hs.
Qed.

Lemma same_start_verbatim_witness :
  let transitionStyle : Style := {[ "opacity" := VNum 1%float ]} in
  let previousStyle : option Style := Some {[ "color" := VStr "red" ]} in
  strict_eq (coalesce (read_opt previousStyle "opacity") (VNum 1%float))
    (VNum 1%float) = true
  /\ (outputAnimatedStyle_of true (Some (Animated_Value 0)) previousStyle
        transitionStyle).1 !! "opacity" = Some (Plain (VNum 1%float)).
Proof.
  intros transitionStyle previousStyle.
  assert (transitionStyle !! "opacity" = Some (VNum 1%float)) as H1
    by (vm_compute; reflexivity).
  assert (strict_eq (coalesce (read_opt previousStyle "opacity")
                       (VNum 1%float)) (VNum 1%float) = true) as H2
    by (vm_compute; reflexivity).
  split; [exact H2|].
  exact (same_start_verbatim true (Some (Animated_Value 0)) previousStyle
           transitionStyle "opacity" (VNum 1%float) H1 H2).
Defined.

(** X11.  The scalar rule (lines 295-306).  While a run is active, a number
    or a string that is not identical to its start value is bound to the
    animated value, over the input range [0, 1]: a number from [+start] to
    the number, a string from [String(start)] to the string.  The start
    value is coerced to the type of the target, whatever its own type. *)
Theorem scalar_interpolation dev av previousStyle (transitionStyle : Style)
    k v :
  let startValue := coalesce (read_opt previousStyle k) v in
  transitionStyle !! k = Some v ->
  isNumber v || isString v = true ->
  strict_eq startValue v = false ->
  (outputAnimatedStyle_of dev (Some av) previousStyle transitionStyle).1 !! k
  = Some (Interpolated
            {| source := av;
               inputRange := [0%float; 1%float];
               outputRange :=
                 [if isNumber v then ToNumber startValue
                  else ToString startValue;
                  Same v] |}).
Proof.
  intros startValue Hk Ht Hs. rewrite outputAnimatedStyle_rendered, Hk. simpl.
  unfold rendered. fold startValue. rewrite Hs.
  destruct (isNumber v); [done|]. simpl in Ht. by rewrite Ht.
Qed.

Lemma scalar_interpolation_witness :
  let transitionStyle : Style :=
    {[ "opacity" := VNum 1%float; "width" := VStr "10px" ]} in
  let previousStyle : option Style :=
    Some {[ "opacity" := VNum 0%float; "width" := VNum 4%float ]} in
  let av := Animated_Value 0 in
  let out :=
    (outputAnimatedStyle_of true (Some av) previousStyle transitionStyle).1 in
  out !! "opacity"
  = Some (Interpolated
            (interpolate av [ToNumber (VNum 0%float); Same (VNum 1%float)]))
  /\ out !! "width"
     = Some (Interpolated
               (interpolate av [ToString (VNum 4%float); Same (VStr "10px")])).
Proof.
  intros transitionStyle previousStyle av out. split.
  - apply (scalar_interpolation true av previousStyle transitionStyle
             "opacity" (VNum 1%float)); vm_compute; reflexivity.
  - apply (scalar_interpolation true av previousStyle transitionStyle
             "width" (VStr "10px")); vm_compute; reflexivity.
Defined.

(** X12.  The properties of [outputAnimatedStyle] (lines 288-507): a
    property is in the output exactly when [transitionStyle] has it and
    no run is active, or its value is identical to its start value, or is
    a number or a string, or the property is [transform] with an array.
    So the output never holds a property that [transitionStyle] lacks, and
    while a run is active an array under another name than [transform]
    that differs from its start value is left out of it. *)
Theorem output_properties dev animatedValue previousStyle
    (transitionStyle : Style) k :
  is_Some
    ((outputAnimatedStyle_of dev animatedValue previousStyle transitionStyle).1
       !! k)
  <-> exists v,
        transitionStyle !! k = Some v
        /\ (animatedValue = None
            \/ strict_eq (coalesce (read_opt previousStyle k) v) v = true
            \/ isNumber v = true \/ isString v = true
            \/ (k = "transform" /\ Array_isArray v = true)).
Proof.
  rewrite outputAnimatedStyle_rendered.
  destruct (transitionStyle !! k) as [v|]; simpl;
    [|split; [by intros [? ?]|by intros (? & [=] & _)]].
  set (Q := fun v : value =>
              animatedValue = None
              \/ strict_eq (coalesce (read_opt previousStyle k) v) v = true
              \/ isNumber v = true \/ isString v = true
              \/ (k = "transform" /\ Array_isArray v = true)).
  transitivity (Q v);
    [|split; [intros H; by exists v|by intros (? & [= <-] & H)]].
  unfold Q, rendered. destruct animatedValue as [av|]; [|split; [auto|eauto]].
  cbv zeta.
  destruct (strict_eq _ v); [split; [auto|eauto]|].
  destruct (isNumber v); [split; [auto 6|eauto]|].
  destruct (isString v); [split; [auto 6|eauto]|].
  destruct (String.eqb_spec k "transform") as [->|Hne].
  - destruct v; simpl;
      try (split; [by intros [? ?]|];
           intros [[=]|[[=]|[[=]|[[=]|[_ [=]]]]]]; fail).
    split; [auto 8|eauto].
  - split; [by intros [? ?]|].
    intros [[=]|[[=]|[[=]|[[=]|[? _]]]]]. done.
Qed.

(** X13.  The reduction that builds [outputAnimatedStyle] raises at most
    one diagnostic, and it raises one only in a development build, while a
    run is active, for a [transitionStyle] whose [transform] is an
    array. *)
Theorem diagnostics_bounded dev animatedValue previousStyle
    (transitionStyle : Style) :
  let log :=
    (outputAnimatedStyle_of dev animatedValue previousStyle transitionStyle).2
  in
  length log <= 1
  /\ (log <> [] ->
      dev = true /\ is_Some animatedValue
      /\ exists r items, transitionStyle !! "transform" = Some (VArr r items)).
Proof.
  cbv zeta. rewrite outputAnimatedStyle_log.
  destruct (transitionStyle !! "transform") as [v|] eqn:Hv;
    [|split; [simpl; lia|done]].
  destruct (entry_log_bounded dev animatedValue previousStyle "transform" v)
    as [->|(Hd & Ha & d & Hl)]; [split; [simpl; lia|done]|].
  rewrite Hl. split; [simpl; lia|]. intros _. split; [done|]. split; [done|].
  destruct v as [| | | | |r items|]; eauto;
    (unfold entry_log, animate_entry in Hl; destruct animatedValue; [|done];
     cbv zeta in Hl;
     repeat match type of Hl with
            | context [if ?c then _ else _] => destruct c; simpl in Hl; try done
            end).
Qed.

(** What is rendered does not depend on the build. *)
Lemma dev_only_logs dev dev' animatedValue previousStyle
    (transitionStyle : Style) :
  (outputAnimatedStyle_of dev animatedValue previousStyle transitionStyle).1
  = (outputAnimatedStyle_of dev' animatedValue previousStyle transitionStyle).1.
Proof.
  apply map_eq. intros k. rewrite !outputAnimatedStyle_rendered.
  destruct (transitionStyle !! k) as [v|]; [|done]. simpl.
  unfold rendered. destruct animatedValue as [av|]; [|done]. cbv zeta.
  repeat match goal with
         | |- context [if ?c then _ else _] => destruct c; try done
         end.
  destruct v; try done. unfold animate_transform_property.
  destruct (coalesce _ _); try done.
  repeat match goal with
         | |- context [if ?c then _ else _] => destruct c; try done
         end.
Qed.

(** X14.  The reduction over [Object.entries(transitionStyle)] does not
    depend on the order of the entries: run over any enumeration of the
    properties, each once, it gives the same [outputAnimatedStyle] and the
    same diagnostics. *)
Theorem entries_order_immaterial dev animatedValue previousStyle
    (l : list (string * value)) :
  NoDup l.*1 ->
  foldl (animate_entry dev animatedValue previousStyle) (∅, []) l
  = outputAnimatedStyle_of dev animatedValue previousStyle (list_to_map l).
Proof.
  intros Hnd.
  pose proof (fun k => fold_lookup dev animatedValue previousStyle l ∅ [] k Hnd)
    as H1.
  pose proof (fold_log dev animatedValue previousStyle l ∅ []) as H2.
  pose proof (outputAnimatedStyle_lookup dev animatedValue previousStyle
                (list_to_map l)) as H3.
  pose proof (outputAnimatedStyle_log dev animatedValue previousStyle
                (list_to_map l)) as H4.
  rewrite (flat_map_transform dev animatedValue previousStyle l Hnd) in H2.
  destruct (foldl _ _ l) as [out log].
  destruct (outputAnimatedStyle_of _ _ _ _) as [out' log']. simpl in *.
  f_equal; [|congruence].
  apply map_eq. intros k. rewrite H1, H3, lookup_empty.
  by destruct (_ ≫= _).
Qed.

Lemma entries_order_immaterial_witness :
  let l := [("transform", VArr 1 []); ("opacity", VNum 1%float)] in
  let l' := [("opacity", VNum 1%float); ("transform", VArr 1 [])] in
  foldl (animate_entry true (Some (Animated_Value 0)) None) (∅, []) l
  = foldl (animate_entry true (Some (Animated_Value 0)) None) (∅, []) l'.
Proof.
  intros l l'.
  assert (NoDup l.*1) as H
    by (apply (bool_decide_unpack _); vm_compute; exact I).
  assert (NoDup l'.*1) as H'
    by (apply (bool_decide_unpack _); vm_compute; exact I).
  rewrite (entries_order_immaterial true (Some (Animated_Value 0)) None l H).
  rewrite (entries_order_immaterial true (Some (Animated_Value 0)) None l' H').
  vm_compute. reflexivity.
Defined.

End EngineProperties.

(* ===================================================================== *)
(** ** The life of a transition *)
(* ===================================================================== *)

Section Lifecycle.

Lemma metadata_eq dev st (style : Style) :
  metadata (useStyleTransition dev st style) = metadata_of style.
Proof.
  unfold useStyleTransition.
  destruct (transitionStyleHasChanged _ _); [done|].
  destruct (transitionStyle_of style); [|done].
  by destruct (outputAnimatedStyle_of _ _ _ _).
Qed.

(** The transitionable subset of a style has not changed from the style. *)
Lemma unchanged_against_itself (style : Style) :
  snapshot_has_NaN (transitionStyle_of style) = false ->
  transitionStyleHasChanged (transitionStyle_of style) (Some style) = false.
Proof.
  intros Hn. destruct (transitionStyle_of style) as [ts|] eqn:Ht; [|done].
  apply transitionStyleHasChanged_subseteq; [|done].
  by apply transitionStyle_of_subseteq.
Qed.

Lemma rerender_state dev st (style : Style) :
  snapshot_has_NaN (transitionStyle_of style) = false ->
  transitionStyleHasChanged (transitionStyle_of style)
    (currentStyle (state_after (useStyleTransition dev st style))) = false
  /\ state_after (rerender dev st style)
     = state_after (useStyleTransition dev st style).
Proof.
  intros Hn.
  assert (transitionStyleHasChanged (transitionStyle_of style)
            (currentStyle (state_after (useStyleTransition dev st style)))
          = false) as Hc.
  { rewrite state_after_eq.
    destruct (transitionStyleHasChanged _ (currentStyle st)) eqn:Hst; [|done].
    by apply unchanged_against_itself. }
  split; [done|]. unfold rerender. by rewrite state_after_eq, Hc.
Qed.

(** What the hook returns when nothing has changed, property by property:
    [Object.assign] lets the output of the engine win over the style. *)
Lemma returned_lookup dev st (style transitionStyle : Style) k :
  transitionStyle_of style = Some transitionStyle ->
  transitionStyleHasChanged (Some transitionStyle) (currentStyle st) = false ->
  returned (useStyleTransition dev st style) !! k
  = match transitionStyle !! k
            ≫= rendered dev (animatedValue st) (previousStyle st) k with
    | Some x => Some x
    | None => if bool_decide (k ∈ reserved) then None else Plain <$> style !! k
    end.
Proof.
  intros Ht Hc. rewrite (useStyleTransition_merge dev st style _ Hc Ht).
  cbn [returned]. rewrite lookup_union, outputAnimatedStyle_rendered.
  rewrite lookup_fmap, styleWithAnimations_lookup.
  destruct (_ ≫= _); [by destruct (_ <$> _)|].
  case_bool_decide; [done|]. by destruct (style !! k).
Qed.

(** X15.  Invariants of the state of the hook (lines 217-226, 276-282),
    after any sequence of renders from mount: [currentStyle] is defined;
    [previousStyle] is defined exactly when [animatedValue] is; and
    [animatedValue] is the [Animated.Value] that the latest render that
    detected a change has created, undefined when none has. *)
Theorem render_all_invariants dev first rest :
  let st := render_all dev first rest in
  is_Some (currentStyle st)
  /\ (is_Some (previousStyle st) <-> is_Some (animatedValue st))
  /\ animatedValue st
     = match allocated st with
       | 0 => None
       | S n => Some (Animated_Value n)
       end.
Proof.
  set (inv := fun st : State =>
    is_Some (currentStyle st)
    /\ (is_Some (previousStyle st) <-> is_Some (animatedValue st))
    /\ animatedValue st
       = match allocated st with 0 => None | S n => Some (Animated_Value n) end).
  assert (forall l st, inv st ->
            inv (foldl (fun st style =>
                          state_after (useStyleTransition dev st style)) st l))
    as Hfold.
  { induction l as [|style l IH]; intros st Hst; [done|].
    cbn [foldl]. apply IH. rewrite state_after_eq.
    destruct (transitionStyleHasChanged _ _); [|done].
    destruct Hst as (Hc & _ & _). unfold inv. simpl.
    split; [eauto|]. split; [|done]. split; eauto. }
  apply (Hfold (first :: rest) (mount first)). unfold inv, mount. simpl.
  split; [eauto|]. split; [|done]. split; by intros [? ?].
Qed.

(** X16.  The hook settles: when the transitionable subset of a style
    holds no NaN, the render that follows a render of that style detects
    no change and leaves the state as it is, whatever the state was
    before.  So a change costs one render that is thrown away, and no
    more. *)
Theorem rerender_settles dev st (style : Style) :
  snapshot_has_NaN (transitionStyle_of style) = false ->
  let after := state_after (useStyleTransition dev st style) in
  transitionStyleHasChanged (transitionStyle_of style) (currentStyle after)
  = false
  /\ state_after (rerender dev st style) = after.
Proof. intros Hn after. by apply rerender_state. Qed.

Lemma rerender_settles_witness :
  let style0 : Style :=
    {[ "opacity" := VNum 0%float; "transitionProperty" := VStr "opacity" ]} in
  let style1 : Style := <["opacity" := VNum 1%float]> style0 in
  snapshot_has_NaN (transitionStyle_of style1) = false
  /\ state_after (rerender true (mount style0) style1)
     = {| currentStyle := Some style1; previousStyle := Some style0;
          animatedValue := Some (Animated_Value 0); allocated := 1 |}.
Proof.
  intros style0 style1.
  assert (snapshot_has_NaN (transitionStyle_of style1) = false) as H
    by (vm_compute; reflexivity).
  split; [exact H|].
  rewrite (proj2 (rerender_settles true (mount style0) style1 H)).
  vm_compute. reflexivity.
Defined.

(** X17.  A render with no change and no run (the first render of a style
    that holds no NaN is one): the hook returns the transitionable subset
    and the style without the four directive keys, every value as it is;
    it raises no diagnostic and leaves the state as it is. *)
Theorem idle_render dev st (style transitionStyle : Style) :
  transitionStyle_of style = Some transitionStyle ->
  transitionStyleHasChanged (Some transitionStyle) (currentStyle st) = false ->
  animatedValue st = None ->
  returned (useStyleTransition dev st style)
  = Plain <$> (transitionStyle ∪ styleWithAnimations_of style)
  /\ warnings (useStyleTransition dev st style) = []
  /\ state_after (useStyleTransition dev st style) = st.
Proof.
  intros Ht Hc Ha. rewrite (useStyleTransition_merge dev st style _ Hc Ht).
  cbn [returned warnings state_after].
  rewrite Ha, outputAnimatedStyle_no_run. simpl.
  by rewrite map_fmap_union.
Qed.

Lemma idle_render_witness :
  let style : Style :=
    {[ "opacity" := VNum 0%float; "color" := VStr "red";
       "transitionProperty" := VStr "opacity";
       "transitionDuration" := VNum 300%float ]} in
  returned (useStyleTransition true (mount style) style)
  = {[ "opacity" := Plain (VNum 0%float); "color" := Plain (VStr "red") ]}.
Proof.
  intros style. set (ts := {[ "opacity" := VNum 0%float ]} : Style).
  assert (transitionStyle_of style = Some ts) as H1
    by (vm_compute; reflexivity).
  assert (transitionStyleHasChanged (Some ts) (currentStyle (mount style))
          = false) as H2 by (vm_compute; reflexivity).
  assert (animatedValue (mount style) = None) as H3 by reflexivity.
  rewrite (proj1 (idle_render true (mount style) style ts H1 H2 H3)).
  vm_compute. reflexivity.
Defined.

(** X18.  What a transition renders.  When a render detects a change (and
    the subset holds no NaN), the render that follows returns, for a
    number or a string of the subset: the value as it is when it is
    identical to what the style stored by the last change gives the
    property (or when that is undefined or null); otherwise an
    interpolation bound to the [Animated.Value] just created, from that
    stored value, coerced, to the new one.  The start is the last target
    stored, not a value reached part-way through a run. *)
Theorem transition_starts dev st (style transitionStyle : Style) k v :
  let startValue := coalesce (read_opt (currentStyle st) k) v in
  let av := Animated_Value (allocated st) in
  transitionStyle_of style = Some transitionStyle ->
  snapshot_has_NaN (Some transitionStyle) = false ->
  transitionStyleHasChanged (Some transitionStyle) (currentStyle st) = true ->
  transitionStyle !! k = Some v ->
  isNumber v || isString v = true ->
  returned (rerender dev st style) !! k
  = Some (if strict_eq startValue v then Plain v
          else Interpolated
                 (interpolate av
                    [if isNumber v then ToNumber startValue
                     else ToString startValue;
                     Same v])).
Proof.
  intros startValue av Ht Hn Hc Hk Hv. unfold rerender.
  pose proof (state_after_eq dev st style) as Hs. rewrite Ht, Hc in Hs.
  rewrite Hs.
  rewrite (returned_lookup dev _ style transitionStyle k Ht).
  2:{ cbn [currentStyle]. rewrite <- Ht. apply unchanged_against_itself.
      by rewrite Ht. }
  cbn [animatedValue previousStyle]. rewrite Hk. simpl.
  unfold rendered. fold startValue av.
  destruct (strict_eq startValue v); [done|].
  destruct (isNumber v); [done|]. simpl in Hv. by rewrite Hv.
Qed.

Lemma transition_starts_witness :
  let style0 : Style :=
    {[ "opacity" := VNum 0%float; "transitionProperty" := VStr "opacity" ]} in
  let style1 : Style := <["opacity" := VNum 1%float]> style0 in
  returned (rerender false (mount style0) style1) !! "opacity"
  = Some (Interpolated
            (interpolate (Animated_Value 0)
               [ToNumber (VNum 0%float); Same (VNum 1%float)])).
Proof.
  intros style0 style1. set (ts := {[ "opacity" := VNum 1%float ]} : Style).
  assert (transitionStyle_of style1 = Some ts) as H1
    by (vm_compute; reflexivity).
  assert (snapshot_has_NaN (Some ts) = false) as H2
    by (vm_compute; reflexivity).
  assert (transitionStyleHasChanged (Some ts) (currentStyle (mount style0))
          = true) as H3 by (vm_compute; reflexivity).
  assert (ts !! "opacity" = Some (VNum 1%float)) as H4
    by (vm_compute; reflexivity).
  assert (isNumber (VNum 1%float) || isString (VNum 1%float) = true) as H5
    by reflexivity.
  rewrite (transition_starts false (mount style0) style1 ts "opacity"
             (VNum 1%float) H1 H2 H3 H4 H5).
  vm_compute. reflexivity.
Defined.

(** X19.  The build flag [__DEV__] changes the diagnostics and nothing
    else: a development build and a production build return the same
    style, reach the same state and compute the same metadata, on every
    render. *)
Theorem dev_changes_warnings_only dev dev' st (style : Style) :
  returned (useStyleTransition dev st style)
  = returned (useStyleTransition dev' st style)
  /\ state_after (useStyleTransition dev st style)
     = state_after (useStyleTransition dev' st style)
  /\ metadata (useStyleTransition dev st style)
     = metadata (useStyleTransition dev' st style).
Proof.
  split; [|split; [by rewrite !state_after_eq|by rewrite !metadata_eq]].
  unfold useStyleTransition.
  destruct (transitionStyleHasChanged _ _); [done|].
  destruct (transitionStyle_of style) as [ts|]; [|done].
  pose proof (dev_only_logs dev dev' (animatedValue st) (previousStyle st) ts)
    as H.
  destruct (outputAnimatedStyle_of dev _ _ _),
    (outputAnimatedStyle_of dev' _ _ _). simpl in *. by rewrite H.
Qed.

End Lifecycle.

(* ===================================================================== *)
(** ** The effect that starts a run *)
(* ===================================================================== *)

Section Effect.

(** X20.  When the effect that starts a run raises (lines 254-274, with
    62-78): exactly when an animated value is set and the timing function
    kept in the metadata is a string that holds [cubic-bezier] and either
    holds no [cubic-bezier(], so that [split] is called on undefined, or
    gives [Easing.bezier] a first or a third number that is not in the
    range [0, 1] (NaN and a missing number are not).  With no animated
    value it does nothing, whatever the metadata. *)
Theorem trigger_raises_exactly animatedValue current :
  ((exists e, trigger animatedValue current = Throw e)
   <-> is_Some animatedValue
       /\ exists s,
            timingFunction current = Some s
            /\ includes s "cubic-bezier" = true
            /\ match indexOf s "cubic-bezier(" with
               | None => True
               | Some n =>
                   let curve := control_points (drop_str (n + 13) s) in
                   in_unit_range (curve !! 0) && in_unit_range (curve !! 2)
                   = false
               end)
  /\ trigger None current = Return None.
Proof.
  split; [|done].
  rewrite <- getEasingFunction_raises_iff. unfold trigger.
  destruct animatedValue as [av|].
  - destruct (getEasingFunction _) as [f|e]; split.
    + by intros [? [=]].
    + by intros [_ [? [=]]].
    + intros _. split; eauto.
    + intros _. eauto.
  - split; [by intros [? [=]]|]. by intros [[? [=]] _].
Qed.

(** X21.  The run that a change starts.  When a render detects a change
    (and the subset holds no NaN), the effect that runs after the render
    that follows starts one sequence: a delay of [transitionDelay] if that
    is a number and 0 otherwise, then a timing animation of the
    [Animated.Value] just created to 1, over [transitionDuration] if that
    is a number and 16 otherwise, with the curve of
    [transitionTimingFunction] if that is a string and of null otherwise,
    and the native driver as [canUseNativeDriver] says of the
    transitionable subset. *)
Theorem run_started dev st (style : Style) f :
  transitionStyleHasChanged (transitionStyle_of style) (currentStyle st)
  = true ->
  snapshot_has_NaN (transitionStyle_of style) = false ->
  getEasingFunction
    (match read style "transitionTimingFunction" with
     | VStr s => Some s
     | _ => None
     end) = Return f ->
  let committed := rerender dev st style in
  trigger (animatedValue (state_after committed)) (metadata committed)
  = Return
      (Some
         (Animated_sequence
            [Animated_delay
               (match read style "transitionDelay" with
                | VNum n => n
                | _ => 0%float
                end);
             Animated_timing (Animated_Value (allocated st))
               {| toValue := 1%float;
                  timing_duration :=
                    match read style "transitionDuration" with
                    | VNum n => n
                    | _ => 16%float
                    end;
                  easing := f;
                  useNativeDriver :=
                    canUseNativeDriver (transitionStyle_of style) |}])).
Proof.
  intros Hc Hn Hf committed. unfold committed.
  rewrite (proj2 (rerender_state dev st style Hn)).
  unfold rerender. rewrite metadata_eq, state_after_eq, Hc.
  unfold trigger, metadata_of. cbn [animatedValue timingFunction].
  by rewrite Hf.
Qed.

Lemma run_started_witness :
  let style0 : Style :=
    {[ "opacity" := VNum 0%float; "transitionProperty" := VStr "opacity";
       "transitionDelay" := VStr "100ms";
       "transitionTimingFunction" := VStr "ease-in" ]} in
  let style1 : Style := <["opacity" := VNum 1%float]> style0 in
  let committed := rerender true (mount style0) style1 in
  trigger (animatedValue (state_after committed)) (metadata committed)
  = Return
      (Some
         (Animated_sequence
            [Animated_delay 0%float;
             Animated_timing (Animated_Value 0)
               {| toValue := 1%float; timing_duration := 16%float;
                  easing := Easing_in Easing_ease;
                  useNativeDriver := true |}])).
Proof.
  intros style0 style1 committed.
  assert (transitionStyleHasChanged (transitionStyle_of style1)
            (currentStyle (mount style0)) = true) as H1
    by (vm_compute; reflexivity).
  assert (snapshot_has_NaN (transitionStyle_of style1) = false) as H2
    by (vm_compute; reflexivity).
  assert (getEasingFunction
            (match read style1 "transitionTimingFunction" with
             | VStr s => Some s
             | _ => None
             end) = Return (Easing_in Easing_ease)) as H3
    by (vm_compute; reflexivity).
  unfold committed.
  rewrite (run_started true (mount style0) style1 _ H1 H2 H3).
  vm_compute. reflexivity.
Defined.

End Effect.

(* ===================================================================== *)
(** ** The control points of a bezier curve *)
(* ===================================================================== *)

Section ControlPoints.

Lemma white_space_inv c :
  is_white_space c = true ->
  c = ascii_of_nat 9 \/ c = ascii_of_nat 10 \/ c = ascii_of_nat 11
  \/ c = ascii_of_nat 12 \/ c = ascii_of_nat 13 \/ c = ascii_of_nat 32
  \/ c = ascii_of_nat 160.
Proof.
  destruct c as [[] [] [] [] [] [] [] []]; vm_compute; intros H;
    first [discriminate H | tauto].
Qed.

Ltac white H :=
  apply white_space_inv in H;
  destruct H as [->|[->|[->|[->|[->|[->| ->]]]]]].

Lemma all_white_cons c s :
  all_white (String c s) = true -> is_white_space c = true /\ all_white s = true.
Proof. simpl. by intros [? ?]%andb_prop. Qed.

(** The scanners of [parseFloat] stop at white space: what follows it is
    not read. *)
Lemma scan_digits_app acc n u r :
  all_white r = true ->
  scan_digits acc n (u +:+ r)
  = let '(a, c, rest) := scan_digits acc n u in (a, c, rest +:+ r).
Proof.
  intros Hr. revert acc n; induction u as [|c u IH]; intros acc n.
  - change ("" +:+ r) with r. destruct r as [|w r]; [done|].
    apply all_white_cons in Hr as [Hw _]. by white Hw.
  - rewrite append_cons. simpl. destruct (digit_of c); [apply IH|done].
Qed.

Lemma scan_sign_app u r :
  all_white r = true ->
  scan_sign (u +:+ r) = let '(neg, rest) := scan_sign u in (neg, rest +:+ r).
Proof.
  intros Hr. destruct u as [|c u].
  - change ("" +:+ r) with r. destruct r as [|w r]; [done|].
    apply all_white_cons in Hr as [Hw _]. by white Hw.
  - rewrite append_cons. by destruct c as [[] [] [] [] [] [] [] []].
Qed.

Lemma scan_exponent_app x r :
  all_white r = true -> scan_exponent (x +:+ r) = scan_exponent x.
Proof.
  intros Hr. destruct x as [|c x].
  - change ("" +:+ r) with r. destruct r as [|w r]; [done|].
    apply all_white_cons in Hr as [Hw _]. by white Hw.
  - rewrite append_cons. unfold scan_exponent.
    destruct (_ || _); [|done].
    rewrite scan_sign_app by done. destruct (scan_sign x) as [neg s].
    rewrite scan_digits_app by done.
    by destruct (scan_digits 0 0 s) as [[a cnt] rest].
Qed.

Lemma prefix_app_white p u r :
  (forall c, In c (list_ascii_of_string p) -> is_white_space c = false) ->
  all_white r = true ->
  String.prefix p (u +:+ r) = String.prefix p u.
Proof.
  intros Hp Hr. revert u; induction p as [|c p IH]; intros u.
  - by destruct u, r.
  - destruct u as [|a u].
    + change ("" +:+ r) with r. destruct r as [|w r]; [done|].
      apply all_white_cons in Hr as [Hw _]. simpl.
      destruct (ascii_dec c w) as [->|]; [|done].
      rewrite Hp in Hw; [done|]. by left.
    + rewrite append_cons. simpl. destruct (ascii_dec c a); [|done].
      apply IH. intros c' Hc'. apply Hp. by right.
Qed.

Lemma scan_decimal_app u r :
  all_white r = true -> scan_decimal (u +:+ r) = scan_decimal u.
Proof.
  intros Hr. unfold scan_decimal.
  rewrite scan_sign_app by done. destruct (scan_sign u) as [neg s1].
  rewrite prefix_app_white; [|intros c Hc|done].
  2:{ simpl in Hc.
      repeat (destruct Hc as [<-|Hc]; [reflexivity|]). done. }
  destruct (String.prefix "Infinity" s1); [done|].
  rewrite scan_digits_app by done.
  destruct (scan_digits 0 0 s1) as [[ip ni] r1].
  destruct r1 as [|c r1].
  - change ("" +:+ r) with r. destruct r as [|w r]; [done|].
    pose proof (scan_exponent_app "" (String w r) Hr) as He.
    change ("" +:+ String w r) with (String w r) in He.
    apply all_white_cons in Hr as [Hw _].
    white Hw; cbv beta iota; by rewrite He.
  - rewrite append_cons.
    pose proof (scan_exponent_app (String c r1) r Hr) as He.
    rewrite append_cons in He.
    destruct c as [[] [] [] [] [] [] [] []]; cbv beta iota;
      rewrite ?He; try done.
    rewrite scan_digits_app by done.
    destruct (scan_digits ip 0 r1) as [[m nf] r2].
    by rewrite scan_exponent_app.
Qed.

Lemma trimStart_id s : starts_white s = false -> trimStart s = s.
Proof. destruct s as [|c s]; [done|]. simpl. by intros ->. Qed.

(** [parseFloat] skips the white space before the number and stops at the
    white space after it. *)
Lemma parseFloat_trim s : parseFloat (trim s) = parseFloat s.
Proof.
  unfold parseFloat, trim.
  destruct (trimStart_spec s) as (l & _ & _ & Ht).
  destruct (trimEnd_spec (trimStart s)) as (r & Hs & Hr & _ & Hh).
  rewrite Ht in Hh. simpl in Hh.
  rewrite trimStart_id by done.
  by rewrite <- (scan_decimal_app (trimEnd (trimStart s)) r Hr), <- Hs.
Qed.

(** X22.  Trimming a piece before [parseFloat] reads it (line 74) changes
    nothing: for every input that holds [cubic-bezier(],
    [getEasingFunction] comes to what [Easing.bezier] comes to on
    [parseFloat] of the comma-separated pieces as they stand, whether that
    call returns or throws. *)
Theorem trim_before_parseFloat (input : string) n :
  indexOf input "cubic-bezier(" = Some n ->
  getEasingFunction (Some input)
  = Easing_bezier
      (map parseFloat
         (split
            (before ")" (before "cubic-bezier(" (drop_str (n + 13) input)))
            ",")).
Proof.
  intros Hn. rewrite (getEasingFunction_bezier _ _ Hn). unfold control_points.
  f_equal. apply map_ext. intros point. apply parseFloat_trim.
Qed.

Lemma trim_before_parseFloat_witness :
  indexOf "cubic-bezier( 0.25 ,0.1, 0.25 , 1 )" "cubic-bezier(" = Some 0
  /\ getEasingFunction (Some "cubic-bezier( 0.25 ,0.1, 0.25 , 1 )")
     = Easing_bezier (map parseFloat [" 0.25 "; "0.1"; " 0.25 "; " 1 "]).
Proof.
  assert (indexOf "cubic-bezier( 0.25 ,0.1, 0.25 , 1 )" "cubic-bezier("
          = Some 0) as H by (vm_compute; reflexivity).
  split; [exact H|].
  rewrite (trim_before_parseFloat _ 0 H). vm_compute. reflexivity.
Defined.

End ControlPoints.

(* ===================================================================== *)
(** ** Equality of stacks, composed *)
(* ===================================================================== *)

Section Transitive.







End Transitive.

(* ===================================================================== *)
(** ** What a transition renders for a transform *)
(* ===================================================================== *)

Section TransformRun.




End TransformRun.

(* ===================================================================== *)
(** ** Directives are compared as they stand *)
(* ===================================================================== *)

Section Untrimmed.

Lemma list_ascii_app s t :
  list_ascii_of_string (s +:+ t)
  = list_ascii_of_string s ++ list_ascii_of_string t.
Proof.
  induction s as [|c s IH]; [done|]. rewrite append_cons. simpl. by f_equal.
Qed.

(** A string in which a character does not occur holds no string that
    starts with it. *)
Lemma indexOf_no_char s c rest :
  Forall (fun a => a <> c) (list_ascii_of_string s) ->
  indexOf s (String c rest) = None.
Proof.
  induction s as [|a s IH]; [done|]. simpl list_ascii_of_string.
  intros [Ha Hs]%Forall_cons. rewrite indexOf_unfold. simpl.
  destruct (ascii_dec c a) as [->|_]; [done|]. by rewrite IH.
Qed.

Lemma all_white_chars s c :
  is_white_space c = false -> all_white s = true ->
  Forall (fun a => a <> c) (list_ascii_of_string s).
Proof.
  intros Hc. induction s as [|a s IH]; [constructor|]. simpl.
  intros [Ha Hs]%andb_prop. constructor; [|by apply IH]. congruence.
Qed.

(** White space around a string brings in no character of another kind. *)
Lemma padded_chars s c :
  is_white_space c = false ->
  Forall (fun a => a <> c) (list_ascii_of_string (trim s)) ->
  Forall (fun a => a <> c) (list_ascii_of_string s).
Proof.
  intros Hc Ht. destruct (trim_spec s) as (l & r & Hs & Hl & Hr & _).
  rewrite Hs, !list_ascii_app, !Forall_app.
  split; [by apply all_white_chars|]. split; [done|by apply all_white_chars].
Qed.

Lemma keyword_inv s :
  keyword s = true ->
  s = "ease" \/ s = "ease-in" \/ s = "ease-out" \/ s = "ease-in-out".
Proof.
  unfold keyword. rewrite !orb_true_iff, !String.eqb_eq. tauto.
Qed.

(** X26.  [getEasingFunction] compares its input as it stands (lines
    63-69): a keyword with white space before or after it is none of the
    keywords, and gives the linear curve. *)
Theorem timing_function_not_trimmed s :
  keyword (trim s) = true -> s <> trim s ->
  getEasingFunction (Some s) = Return Easing_linear.
Proof.
  intros Hk Hs.
  assert (keyword s = false) as Hn.
  { destruct (keyword s) eqn:Hks; [|done]. destruct Hs.
    apply keyword_inv in Hks as [->|[->|[->| ->]]]; reflexivity. }
  rewrite getEasingFunction_other by done.
  assert (includes s "cubic-bezier" = false) as ->; [|done].
  unfold includes. rewrite indexOf_no_char; [done|].
  apply padded_chars; [done|].
  apply keyword_inv in Hk as [->|[->|[->| ->]]];
    repeat constructor; discriminate.
Qed.

Lemma timing_function_not_trimmed_witness :
  keyword (trim "ease-in ") = true
  /\ "ease-in " <> trim "ease-in "
  /\ getEasingFunction (Some "ease-in ") = Return Easing_linear.
Proof.
  assert (keyword (trim "ease-in ") = true) as H1 by (vm_compute; reflexivity).
  assert ("ease-in " <> trim "ease-in ") as H2
    by (apply (bool_decide_unpack _); vm_compute; exact I).
  split; [exact H1|]. split; [exact H2|].
  exact (timing_function_not_trimmed "ease-in " H1 H2).
Defined.

(** X27.  [getTransitionProperties] compares with ['all'] before it trims
    (lines 81-85): the token with white space around it is not expanded
    into [opacity] and [transform]; it resolves to the one name ['all'],
    so that the transitionable subset holds at most the property of the
    style of that name. *)
Theorem all_not_trimmed s :
  s <> "all" -> trim s = "all" ->
  getTransitionProperties (VStr s) = Some ["all"]
  /\ forall style : Style,
       read style "transitionProperty" = VStr s ->
       transitionStyle_of style
       = Some (if transitionable (read style "all")
               then {[ "all" := read style "all" ]} else ∅).
Proof.
  intros Hs Ht.
  assert (getTransitionProperties (VStr s) = Some ["all"]) as Hg.
  { unfold getTransitionProperties. cbn [strict_eq].
    destruct (String.eqb_spec s "all"); [done|].
    rewrite split_indexOf by done.
    rewrite (indexOf_no_char s ","%char "").
    - cbn [map]. by rewrite Ht.
    - apply padded_chars; [done|]. rewrite Ht.
      repeat constructor; discriminate. }
  split; [done|]. intros style Hr. unfold transitionStyle_of.
  rewrite Hr, Hg. simpl. unfold pick.
  fold (transitionable (read style "all")).
  by destruct (transitionable (read style "all")).
Qed.

Lemma all_not_trimmed_witness :
  " all" <> "all" /\ trim " all" = "all"
  /\ getTransitionProperties (VStr " all") = Some ["all"].
Proof.
  assert (" all" <> "all") as H1
    by (apply (bool_decide_unpack _); vm_compute; exact I).
  assert (trim " all" = "all") as H2 by (vm_compute; reflexivity).
  split; [exact H1|]. split; [exact H2|].
  exact (proj1 (all_not_trimmed " all" H1 H2)).
Defined.

End Untrimmed.
